(** * Imatge-a-so: a camera-to-speech reader (OCR, then TTS, then playback)

    Shallow embedding of [src/App.tsx] (the [App] component: [speakStatus],
    [playPCMAudio], [processImage], [handleFileChange], [replayAudio], the
    [disabled] guards of its buttons and, in [View], what it renders from
    its state; in [AnyHost], the same functions on a host that may lack
    speech synthesis), of [services/geminiService]
    ([GeminiService.extractText], [GeminiService.generateSpeech]) and of the
    speech route of [server.ts] ([Server.endpoint]).

    Conventions.
    - A JavaScript string is its sequence of UTF-16 code units, a [list Z].
    - Host functions the source calls but does not define are modelled from
      their standards: [window.atob] (WHATWG forgiving-base64 decode),
      [String.prototype.trim] (ECMAScript), the [Int16Array] constructor
      (ECMAScript typed arrays, little-endian host), number division and the
      [Float32Array] store (IEEE 754 binary64 and binary32, through the
      Standard Library's [SpecFloat]), [String.prototype.split] and the data
      URL of [FileReader.readAsDataURL] (File API), [response.ok] (Fetch).
    - Effectful code is a program tree [Prog]: synchronous effects, host
      calls that may throw, and [await] points whose promise may fulfil or
      reject.  [run] executes a tree against an environment and yields the
      completion, the final store and the trace of outward effects. *)

From Stdlib Require Import String Ascii ZArith Bool Lia QArith List.
From Stdlib Require Import Floats.SpecFloat.
Import ListNotations.
Open Scope Z_scope.

(** ** JavaScript strings *)

Module JS.

Definition jsstring := list Z.

(** A literal of the source, as code units. *)
Definition lit (s : string) : jsstring :=
  List.map (fun a => Z.of_N (N_of_ascii a)) (list_ascii_of_string s).

Fixpoint eqb (a b : jsstring) : bool :=
  match a, b with
  | [], [] => true
  | x :: a', y :: b' => (x =? y) && eqb a' b'
  | _, _ => false
  end.

(** ToBoolean on a string: the empty string is falsy. *)
Definition truthy (s : jsstring) : bool :=
  match s with [] => false | _ :: _ => true end.

(** ToBoolean on [string | null | undefined]. *)
Definition truthy_opt (o : option jsstring) : bool :=
  match o with Some s => truthy s | None => false end.

(** ECMAScript WhiteSpace and LineTerminator code points, the ones
    [String.prototype.trim] strips. *)
Definition is_space (c : Z) : bool :=
  (c =? 9) || (c =? 10) || (c =? 11) || (c =? 12) || (c =? 13) || (c =? 32)
  || (c =? 160) || (c =? 5760) || ((8192 <=? c) && (c <=? 8202))
  || (c =? 8232) || (c =? 8233) || (c =? 8239) || (c =? 8287)
  || (c =? 12288) || (c =? 65279).

Fixpoint trimStart (s : jsstring) : jsstring :=
  match s with
  | c :: s' => if is_space c then trimStart s' else s
  | [] => []
  end.

Definition trimEnd (s : jsstring) : jsstring := rev (trimStart (rev s)).

Definition trim (s : jsstring) : jsstring := trimEnd (trimStart s).

End JS.

Definition jsstring := JS.jsstring.

(** ** Base64 *)

Module Base64.

(** The alphabet of RFC 4648, section 4: sextet to code unit. *)
Definition char_of (i : Z) : Z :=
  if i <? 26 then 65 + i
  else if i <? 52 then 97 + (i - 26)
  else if i <? 62 then 48 + (i - 52)
  else if i =? 62 then 43
  else 47.

(** Code unit to sextet; [None] outside the alphabet. *)
Definition index_of (c : Z) : option Z :=
  if (65 <=? c) && (c <=? 90) then Some (c - 65)
  else if (97 <=? c) && (c <=? 122) then Some (c - 97 + 26)
  else if (48 <=? c) && (c <=? 57) then Some (c - 48 + 52)
  else if c =? 43 then Some 62
  else if c =? 47 then Some 63
  else None.

Definition pad : Z := 61.

(** Sextets of a byte sequence, three bytes to four sextets; a last group of
    one or two bytes gives two or three sextets. *)
Fixpoint sextets (bs : list Z) : list Z :=
  match bs with
  | b0 :: b1 :: b2 :: rest =>
      let n := b0 * 65536 + b1 * 256 + b2 in
      n / 262144 :: (n / 4096) mod 64 :: (n / 64) mod 64 :: n mod 64
        :: sextets rest
  | [b0; b1] =>
      let n := (b0 * 256 + b1) * 4 in
      [n / 4096; (n / 64) mod 64; n mod 64]
  | [b0] =>
      let n := b0 * 16 in
      [n / 64; n mod 64]
  | [] => []
  end.

Definition padding (len : nat) : list Z :=
  match (len mod 3)%nat with
  | 1%nat => [pad; pad]
  | 2%nat => [pad]
  | _ => []
  end.

(** Standard base64 with padding, what [Buffer.toString("base64")] of
    [server.ts] and the TTS provider produce. *)
Definition encode (bs : list Z) : jsstring :=
  List.map char_of (sextets bs) ++ padding (length bs).

(** ASCII whitespace of the WHATWG Infra standard. *)
Definition is_ascii_whitespace (c : Z) : bool :=
  (c =? 9) || (c =? 10) || (c =? 12) || (c =? 13) || (c =? 32).

(** Step 2 of forgiving-base64 decode: one or two trailing [=] are removed,
    only when the length is a multiple of four. *)
Definition strip_padding (d : jsstring) : jsstring :=
  if (Nat.eqb (length d mod 4) 0)%nat then
    match rev d with
    | c1 :: r1 =>
        if c1 =? pad then
          match r1 with
          | c2 :: r2 => if c2 =? pad then rev r2 else rev r1
          | [] => rev r1
          end
        else d
    | [] => d
    end
  else d.

Fixpoint indexes (d : jsstring) : option (list Z) :=
  match d with
  | [] => Some []
  | c :: d' =>
      match index_of c, indexes d' with
      | Some i, Some l => Some (i :: l)
      | _, _ => None
      end
  end.

(** Steps 5 to 9: every four sextets give three bytes; a remainder of two
    sextets (12 bits) gives one byte, of three (18 bits) gives two. *)
Fixpoint octets (l : list Z) : list Z :=
  match l with
  | a :: b :: c :: d :: rest =>
      let n := a * 262144 + b * 4096 + c * 64 + d in
      n / 65536 :: (n / 256) mod 256 :: n mod 256 :: octets rest
  | [a; b; c] =>
      let n := (a * 4096 + b * 64 + c) / 4 in
      [n / 256; n mod 256]
  | [a; b] =>
      let n := (a * 64 + b) / 16 in
      [n]
  | _ => []
  end.

(** [window.atob]: [None] stands for the InvalidCharacterError it throws. *)
Definition atob (data : jsstring) : option jsstring :=
  let d := filter (fun c => negb (is_ascii_whitespace c)) data in
  let d := strip_padding d in
  if (Nat.eqb (length d mod 4) 1)%nat then None
  else match indexes d with
       | Some l => Some (octets l)
       | None => None
       end.

End Base64.

(** ** Typed arrays and sample conversion *)

Module PCM.

(** The store [bytes[i] = binaryString.charCodeAt(i)] into a [Uint8Array]
    keeps the value modulo 256. *)
Definition Uint8Array_from (binaryString : jsstring) : list Z :=
  List.map (fun c => c mod 256) binaryString.

(** Two's complement reading of a 16-bit pattern. *)
Definition signed16 (u : Z) : Z := if u <? 32768 then u else u - 65536.

Fixpoint int16_elements (bytes : list Z) : list Z :=
  match bytes with
  | lo :: hi :: rest => signed16 (lo + 256 * hi) :: int16_elements rest
  | _ => []
  end.

(** [new Int16Array(bytes.buffer)]: a RangeError ([None]) when the byte
    length is not a multiple of two, else a view of the same bytes in the
    host's (little-endian) order. *)
Definition Int16Array_of_buffer (bytes : list Z) : option (list Z) :=
  if Nat.even (length bytes) then Some (int16_elements bytes) else None.

(** ToNumber of an integer: the binary64 value. *)
Definition binary64_of_Z (v : Z) : spec_float := binary_normalize 53 1024 v 0 false.

(** The store into a [Float32Array] rounds the binary64 value to binary32. *)
Definition binary32_of_binary64 (x : spec_float) : spec_float :=
  match x with
  | S754_finite s m e => binary_round 24 128 s m e
  | _ => x
  end.

(** [float32Data[i] = int16Data[i] / 32768.0] *)
Definition sample_of_int16 (v : Z) : spec_float :=
  binary32_of_binary64 (SFdiv 53 1024 (binary64_of_Z v) (binary64_of_Z 32768)).

(** The rational a finite float denotes. *)
Definition SF2Q (x : spec_float) : option Q :=
  match x with
  | S754_zero _ => Some 0%Q
  | S754_finite s m e =>
      let mz := if s then Z.neg m else Z.pos m in
      Some (match e with
            | Z0 => inject_Z mz
            | Z.pos p => inject_Z (mz * 2 ^ Z.pos p)
            | Z.neg p => Qmake mz (2 ^ p)
            end)
  | _ => None
  end.

Inductive DecodeError := InvalidCharacterError | RangeError.

(** Lines 84 to 96 of [playPCMAudio]: base64 to bytes to 16-bit integers to
    float samples. *)
Definition decode (base64Data : jsstring) : DecodeError + list spec_float :=
  match Base64.atob base64Data with
  | None => inl InvalidCharacterError
  | Some binaryString =>
      let bytes := Uint8Array_from binaryString in
      match Int16Array_of_buffer bytes with
      | None => inl RangeError
      | Some int16Data => inr (List.map sample_of_int16 int16Data)
      end
  end.

End PCM.

(** ** Effectful programs *)

(** The language table of [App.tsx]; a language key is one of the four keys
    of [SUPPORTED_LANGUAGES], the only values the [select] offers. *)
Inductive LangKey := ca | es | en | fr.

Record Language := {
  code : jsstring;
  name : jsstring;
  voice : jsstring;
  prompt : jsstring;
  errorMsg : jsstring;
  processingMsg : jsstring
}.

Record File := { type : jsstring; size : nat }.

(** The five [useState] cells. *)
Record Hooks := {
  selectedLang : LangKey;
  isProcessing : bool;
  error : option jsstring;
  lastText : option jsstring;
  audioData : option jsstring
}.

(** The cells and the [audioContextRef] ref: [true] once it holds a
    context. *)
Record Store := {
  hooks : Hooks;
  audioContextRef : bool
}.

(** Promises the code awaits. *)
Inductive Request :=
| readAsDataURL (file : File)
| generateContent_OCR (data : option jsstring) (mimeType langPrompt : jsstring)
| generateContent_TTS (text voiceName : jsstring).

(** How a promise settles.  The value is the part of the result the code
    reads: the base64 half of the data URL, [result.text], or the
    [inlineData.data] of the first part of the first candidate; [None] is
    [undefined].  A promise that never settles has no outcome under [run];
    on the [Page] below its capture just stays in flight. *)
Inductive Settled :=
| Fulfilled (v : option jsstring)
| Rejected.

(** Synchronous Web Audio calls, which may throw.  [start_buffer] stands
    for createBuffer, getChannelData(0).set, createBufferSource, connect and
    start, taken together. *)
Inductive HostCall :=
| new_AudioContext (sampleRate : Z)
| start_buffer (channels : Z) (samples : list spec_float) (sampleRate : Z).

Inductive Exn :=
| DecodeFailure (e : PCM.DecodeError)
| NotSupportedError
| HostFailure (c : HostCall)
| Rejection (r : Request)
| TypeError.

(** Outward effects, in the order they happen.  The two speech events are
    [speechSynthesis.cancel()] and [speechSynthesis.speak(utterance)], which
    the Web Speech API lets neither throw. *)
Inductive Event :=
| EvRequest (r : Request)
| EvHost (c : HostCall) (returned : bool)
| EvSpeechCancel
| EvSpeechSpeak (text lang : jsstring) (rate : Q)
| EvConsoleError.

Inductive Action :=
| setSelectedLang (l : LangKey)
| setIsProcessing (b : bool)
| setError (e : option jsstring)
| setLastText (t : option jsstring)
| setAudioData (a : option jsstring)
| setAudioContextRef.

Definition update_hooks (a : Action) (h : Hooks) : Hooks :=
  match a with
  | setSelectedLang l =>
      {| selectedLang := l; isProcessing := isProcessing h; error := error h;
         lastText := lastText h; audioData := audioData h |}
  | setIsProcessing b =>
      {| selectedLang := selectedLang h; isProcessing := b; error := error h;
         lastText := lastText h; audioData := audioData h |}
  | setError e =>
      {| selectedLang := selectedLang h; isProcessing := isProcessing h; error := e;
         lastText := lastText h; audioData := audioData h |}
  | setLastText t =>
      {| selectedLang := selectedLang h; isProcessing := isProcessing h; error := error h;
         lastText := t; audioData := audioData h |}
  | setAudioData a =>
      {| selectedLang := selectedLang h; isProcessing := isProcessing h; error := error h;
         lastText := lastText h; audioData := a |}
  | setAudioContextRef => h
  end.

Definition update (a : Action) (s : Store) : Store :=
  match a with
  | setAudioContextRef => {| hooks := hooks s; audioContextRef := true |}
  | _ => {| hooks := update_hooks a (hooks s); audioContextRef := audioContextRef s |}
  end.

(** A program: what an (async) function of the source does, as a tree. *)
Inductive Prog (A : Type) : Type :=
| Ret (a : A)
| Throw (e : Exn)
| Do (a : Action) (k : Prog A)
| Read (k : Store -> Prog A)
| Emit (e : Event) (k : Prog A)
| Host (c : HostCall) (k : bool -> Prog A)
| Await (r : Request) (k : Settled -> Prog A).

Arguments Ret {A} a.
Arguments Throw {A} e.
Arguments Do {A} a k.
Arguments Read {A} k.
Arguments Emit {A} e k.
Arguments Host {A} c k.
Arguments Await {A} r k.

Fixpoint bind {A B} (p : Prog A) (f : A -> Prog B) : Prog B :=
  match p with
  | Ret a => f a
  | Throw e => Throw e
  | Do a k => Do a (bind k f)
  | Read k => Read (fun s => bind (k s) f)
  | Emit e k => Emit e (bind k f)
  | Host c k => Host c (fun ok => bind (k ok) f)
  | Await r k => Await r (fun o => bind (k o) f)
  end.

(** [try { p } catch (err) { h err }] *)
Fixpoint try_catch {A} (p : Prog A) (h : Exn -> Prog A) : Prog A :=
  match p with
  | Ret a => Ret a
  | Throw e => h e
  | Do a k => Do a (try_catch k h)
  | Read k => Read (fun s => try_catch (k s) h)
  | Emit e k => Emit e (try_catch k h)
  | Host c k => Host c (fun ok => try_catch (k ok) h)
  | Await r k => Await r (fun o => try_catch (k o) h)
  end.

(** [try { p } finally { f }]: [f] runs on both completions, which it then
    passes on. *)
Fixpoint try_finally {A} (p : Prog A) (f : Prog unit) : Prog A :=
  match p with
  | Ret a => bind f (fun _ => Ret a)
  | Throw e => bind f (fun _ => Throw e)
  | Do a k => Do a (try_finally k f)
  | Read k => Read (fun s => try_finally (k s) f)
  | Emit e k => Emit e (try_finally k f)
  | Host c k => Host c (fun ok => try_finally (k ok) f)
  | Await r k => Await r (fun o => try_finally (k o) f)
  end.

Declare Scope prog_scope.
Delimit Scope prog_scope with prog.
Notation "x <- p ;; q" := (bind p (fun x => q))
  (at level 61, p at next level, right associativity) : prog_scope.
Notation "p ;; q" := (bind p (fun _ => q))
  (at level 61, right associativity) : prog_scope.
Open Scope prog_scope.

Definition do_ (a : Action) : Prog unit := Do a (Ret tt).
Definition emit (e : Event) : Prog unit := Emit e (Ret tt).

(** [await] of a promise: the value, or the rejection thrown. *)
Definition await (r : Request) : Prog (option jsstring) :=
  Await r (fun o => match o with
                    | Fulfilled v => Ret v
                    | Rejected => Throw (Rejection r)
                    end).

(** A host call: returns, or throws. *)
Definition host_call (c : HostCall) : Prog unit :=
  Host c (fun returned => if returned then Ret tt else Throw (HostFailure c)).

(** *** Running a program *)

Record Env := {
  settle : Request -> Settled;
  host : HostCall -> bool
}.

Inductive Completion (A : Type) :=
| Normal (a : A)
| Abrupt (e : Exn).
Arguments Normal {A} a.
Arguments Abrupt {A} e.

Record Outcome (A : Type) := {
  completion : Completion A;
  final : Store;
  trace : list Event
}.
Arguments completion {A} o.
Arguments final {A} o.
Arguments trace {A} o.

Definition logged {A} (e : Event) (o : Outcome A) : Outcome A :=
  {| completion := completion o; final := final o; trace := e :: trace o |}.

Fixpoint run {A} (env : Env) (p : Prog A) (s : Store) : Outcome A :=
  match p with
  | Ret a => {| completion := Normal a; final := s; trace := [] |}
  | Throw e => {| completion := Abrupt e; final := s; trace := [] |}
  | Do a k => run env k (update a s)
  | Read k => run env (k s) s
  | Emit e k => logged e (run env k s)
  | Host c k => logged (EvHost c (host env c)) (run env (k (host env c)) s)
  | Await r k => logged (EvRequest r) (run env (k (settle env r)) s)
  end.

(** ** [services/geminiService] *)

Module GeminiService.

Record OCRResult := { text : jsstring; error : option jsstring }.

Definition NO_TEXT_FOUND : jsstring := JS.lit "NO_TEXT_FOUND".
Definition API_ERROR : jsstring := JS.lit "API_ERROR".

(** [a || b] on strings, [a] possibly undefined. *)
Definition or_else (a : option jsstring) (b : jsstring) : jsstring :=
  match a with
  | Some s => if JS.truthy s then s else b
  | None => b
  end.

(** [extractText], lines 18 to 44: the model call and the reading of its
    text inside [try], the API_ERROR result in [catch]. *)
Definition extractText (base64Data : option jsstring) (mimeType langPrompt : jsstring)
  : Prog OCRResult :=
  try_catch
    (result_text <- await (generateContent_OCR base64Data mimeType langPrompt) ;;
     let text := or_else (option_map JS.trim result_text) [] in
     if JS.eqb text NO_TEXT_FOUND || negb (JS.truthy text) then
       Ret {| text := []; error := Some NO_TEXT_FOUND |}
     else
       Ret {| text := text; error := None |})
    (fun _ =>
       emit EvConsoleError ;;
       Ret {| text := []; error := Some API_ERROR |}).

(** [x || null] *)
Definition or_null (a : option jsstring) : option jsstring :=
  match a with
  | Some s => if JS.truthy s then Some s else None
  | None => None
  end.

(** [generateSpeech], lines 49 to 69. *)
Definition generateSpeech (text voiceName : jsstring) : Prog (option jsstring) :=
  try_catch
    (data <- await (generateContent_TTS text voiceName) ;;
     Ret (or_null data))
    (fun _ =>
       emit EvConsoleError ;;
       Ret None).

End GeminiService.

(** ** [App.tsx] *)

Module App.

(** Lines 20 to 53.  Code units above 127 are written by number: 224 is a
    grave, 231 c cedilla, 233 e acute, 239 i diaeresis, 241 n tilde. *)
Definition SUPPORTED_LANGUAGES (key : LangKey) : Language :=
  match key with
  | ca => {| code := JS.lit "ca-ES";
             name := JS.lit "Catal" ++ [224];
             voice := JS.lit "Kore";
             prompt := JS.lit "catal" ++ [224];
             errorMsg := JS.lit "No s'ha detectat cap text a la imatge. Torna-ho a provar.";
             processingMsg := JS.lit "Processant..." |}
  | es => {| code := JS.lit "es-ES";
             name := JS.lit "Espa" ++ [241] ++ JS.lit "ol";
             voice := JS.lit "Kore";
             prompt := JS.lit "espa" ++ [241] ++ JS.lit "ol";
             errorMsg := JS.lit "No se ha detectado texto en la imagen. Int"
                           ++ [233] ++ JS.lit "ntalo de nuevo.";
             processingMsg := JS.lit "Procesando..." |}
  | en => {| code := JS.lit "en-US";
             name := JS.lit "English";
             voice := JS.lit "Puck";
             prompt := JS.lit "english";
             errorMsg := JS.lit "No text detected in the image. Please try again.";
             processingMsg := JS.lit "Processing..." |}
  | fr => {| code := JS.lit "fr-FR";
             name := JS.lit "Fran" ++ [231] ++ JS.lit "ais";
             voice := JS.lit "Fenrir";
             prompt := JS.lit "fran" ++ [231] ++ JS.lit "ais";
             errorMsg := JS.lit "Aucun texte d" ++ [233] ++ JS.lit "tect" ++ [233]
                           ++ JS.lit " dans l'image. Veuillez r" ++ [233]
                           ++ JS.lit "essayer.";
             processingMsg := JS.lit "Traitement..." |}
  end.

(** The functions below are closures of one render: they see the cells as
    they were when that render ran ([r]), whatever is set afterwards; the
    ref is read from the store. *)
Section Render.
Variable r : Hooks.

Definition langConfig : Language := SUPPORTED_LANGUAGES (selectedLang r).

(** Lines 68 to 74. *)
Definition speakStatus (text : jsstring) : Prog unit :=
  emit EvSpeechCancel ;;
  emit (EvSpeechSpeak text (code langConfig) (9 # 10)).

(** Lines 98 to 104 of [playPCMAudio]: the buffer is created, filled and
    started.  createBuffer throws a NotSupportedError for a length of
    zero. *)
Definition play (float32Data : list spec_float) : Prog unit :=
  match float32Data with
  | [] => Throw NotSupportedError
  | _ :: _ => host_call (start_buffer 1 float32Data 24000)
  end.

(** Lines 77 to 109.  The decoding of lines 84 to 96 is [PCM.decode]. *)
Definition playPCMAudio (base64Data : jsstring) : Prog unit :=
  try_catch
    (Read (fun s =>
       (if negb (audioContextRef s) then
          host_call (new_AudioContext 24000) ;;
          do_ setAudioContextRef
        else Ret tt) ;;
       match PCM.decode base64Data with
       | inl e => Throw (DecodeFailure e)
       | inr float32Data => play float32Data
       end))
    (fun err =>
       emit EvConsoleError ;;
       match lastText r with
       | Some t => if JS.truthy t then speakStatus t else Ret tt
       | None => Ret tt
       end).

(** Line 152: the message of the top-level handler. *)
Definition generic_error : jsstring :=
  match selectedLang r with
  | ca => JS.lit "S'ha produ" ++ [239] ++ JS.lit "t un error."
  | _ => JS.lit "An error occurred."
  end.

(** Lines 111 to 158.  The early [return] of the no-text branch still runs
    the [finally] block. *)
Definition processImage (file : File) : Prog unit :=
  do_ (setIsProcessing true) ;;
  do_ (setError None) ;;
  do_ (setLastText None) ;;
  do_ (setAudioData None) ;;
  try_finally
    (try_catch
       (base64Data <- await (readAsDataURL file) ;;
        ocrResult <- GeminiService.extractText base64Data (type file) (prompt langConfig) ;;
        if JS.truthy_opt (GeminiService.error ocrResult)
           || negb (JS.truthy (GeminiService.text ocrResult))
        then
          do_ (setError (Some (errorMsg langConfig))) ;;
          speakStatus (errorMsg langConfig) ;;
          do_ (setIsProcessing false)
        else
          do_ (setLastText (Some (GeminiService.text ocrResult))) ;;
          base64Audio <- GeminiService.generateSpeech
                           (GeminiService.text ocrResult) (voice langConfig) ;;
          match base64Audio with
          | Some (c :: b) =>
              do_ (setAudioData (Some (c :: b))) ;;
              playPCMAudio (c :: b)
          | _ => speakStatus (GeminiService.text ocrResult)
          end)
       (fun err =>
          emit EvConsoleError ;;
          do_ (setError (Some generic_error)) ;;
          speakStatus generic_error))
    (do_ (setIsProcessing false)).

(** Lines 160 to 163; [e.target.files?.[0]] is [None] when no file was
    chosen.  The promise of [processImage] is not awaited. *)
Definition handleFileChange (file : option File) : Prog unit :=
  match file with
  | Some f => processImage f
  | None => Ret tt
  end.

(** Lines 165 to 171. *)
Definition replayAudio : Prog unit :=
  match audioData r with
  | Some (c :: a) => playPCMAudio (c :: a)
  | _ =>
      match lastText r with
      | Some (c :: t) => speakStatus (c :: t)
      | _ => Ret tt
      end
  end.

(** [disabled] of the two capture buttons (lines 198 and 216) and of the
    replay button (line 227). *)
Definition capture_disabled : bool := isProcessing r.
Definition replay_disabled : bool :=
  isProcessing r || (negb (JS.truthy_opt (audioData r)) && negb (JS.truthy_opt (lastText r))).

End Render.

End App.

(** ** The data URL of the file reader *)

(** Lines 119 to 126 of [processImage]: the promise resolves with
    [reader.result.split(',')[1]].  A comma is code unit 44. *)
Module DataURL.

(** [String.prototype.split] with a separator of one code unit: the
    pieces between the separators, at least one piece. *)
Fixpoint split (separator : Z) (s : jsstring) : list jsstring :=
  match s with
  | [] => [[]]
  | c :: s' =>
      if c =? separator then [] :: split separator s'
      else match split separator s' with
           | piece :: pieces => (c :: piece) :: pieces
           | [] => [[c]]
           end
  end.

(** [result.split(',')[1]]; [None] is [undefined]. *)
Definition base64_of (result : jsstring) : option jsstring :=
  nth_error (split 44 result) 1.

(** [readAsDataURL] of the File API: the scheme, the media type, the
    base64 marker and the standard encoding of the bytes of the file. *)
Definition readAsDataURL_result (mediaType : jsstring) (bytes : list Z) : jsstring :=
  JS.lit "data:" ++ mediaType ++ JS.lit ";base64," ++ Base64.encode bytes.

(** How the read ends, at the [loadend] event: [reader.result] is the
    data URL, or null after a read error. *)
Inductive LoadEnd :=
| result_is (dataURL : jsstring)
| result_is_null.

(** The listener of lines 120 to 123: the value it resolves the promise
    with.  On null, [.split] throws a TypeError inside the listener, so
    [resolve] is not called ([None]); the executor takes no [reject] and
    sets no [onerror], so nothing else settles the promise. *)
Definition onloadend (e : LoadEnd) : option (option jsstring) :=
  match e with
  | result_is dataURL => Some (base64_of dataURL)
  | result_is_null => None
  end.

End DataURL.

(** ** [App.tsx] on a host that may lack speech synthesis *)

(** [App] above takes the Web Speech API for granted: its [speakStatus] is
    two events that cannot fail.  The source calls
    [window.speechSynthesis.cancel()] unguarded (line 69), so on a host
    where [window.speechSynthesis] is undefined [speakStatus] throws a
    TypeError at its first statement, also when it is called from a
    [catch] block.  The functions that reach [speakStatus] are given
    again here for both kinds of host; on a host with speech synthesis
    they are those of [App]. *)
Module AnyHost.

Section Render.
Variable speechSynthesis : bool.
Variable r : Hooks.

(** Lines 68 to 74. *)
Definition speakStatus (text : jsstring) : Prog unit :=
  if speechSynthesis then App.speakStatus r text else Throw TypeError.

(** Lines 77 to 109. *)
Definition playPCMAudio (base64Data : jsstring) : Prog unit :=
  try_catch
    (Read (fun s =>
       (if negb (audioContextRef s) then
          host_call (new_AudioContext 24000) ;;
          do_ setAudioContextRef
        else Ret tt) ;;
       match PCM.decode base64Data with
       | inl e => Throw (DecodeFailure e)
       | inr float32Data => App.play float32Data
       end))
    (fun err =>
       emit EvConsoleError ;;
       match lastText r with
       | Some t => if JS.truthy t then speakStatus t else Ret tt
       | None => Ret tt
       end).

(** Lines 111 to 158. *)
Definition processImage (file : File) : Prog unit :=
  do_ (setIsProcessing true) ;;
  do_ (setError None) ;;
  do_ (setLastText None) ;;
  do_ (setAudioData None) ;;
  try_finally
    (try_catch
       (base64Data <- await (readAsDataURL file) ;;
        ocrResult <- GeminiService.extractText base64Data (type file)
                       (prompt (App.langConfig r)) ;;
        if JS.truthy_opt (GeminiService.error ocrResult)
           || negb (JS.truthy (GeminiService.text ocrResult))
        then
          do_ (setError (Some (errorMsg (App.langConfig r)))) ;;
          speakStatus (errorMsg (App.langConfig r)) ;;
          do_ (setIsProcessing false)
        else
          do_ (setLastText (Some (GeminiService.text ocrResult))) ;;
          base64Audio <- GeminiService.generateSpeech
                           (GeminiService.text ocrResult) (voice (App.langConfig r)) ;;
          match base64Audio with
          | Some (c :: b) =>
              do_ (setAudioData (Some (c :: b))) ;;
              playPCMAudio (c :: b)
          | _ => speakStatus (GeminiService.text ocrResult)
          end)
       (fun err =>
          emit EvConsoleError ;;
          do_ (setError (Some (App.generic_error r))) ;;
          speakStatus (App.generic_error r)))
    (do_ (setIsProcessing false)).

End Render.

End AnyHost.

(** ** What [App] renders *)

(** Lines 173 to 283 of [App.tsx], as far as they depend on the cells: the
    labels of the three buttons and the heading of the text panel (chains
    of [selectedLang === ...] tests, whose last branch is French), the
    spinner, the error banner [{error && ...}] and the text panel
    [{lastText && !isProcessing && ...}].  Code unit 237 is i acute. *)
Module View.

Section Render.
Variable r : Hooks.



Definition gallery_label : jsstring :=
  match selectedLang r with
  | ca => JS.lit "Galeria"
  | es => JS.lit "Galer" ++ [237] ++ JS.lit "a"
  | en => JS.lit "Gallery"
  | fr => JS.lit "Galerie"
  end.

Definition replay_label : jsstring :=
  match selectedLang r with
  | ca => JS.lit "Repetir"
  | es => JS.lit "Repetir"
  | en => JS.lit "Replay"
  | fr => JS.lit "R" ++ [233] ++ JS.lit "p" ++ [233] ++ JS.lit "ter"
  end.




End Render.

End View.

(** ** [server.ts] *)

(** The route [POST /api/tts/elevenlabs]: the JSON parser of line 13 and
    the handler of lines 16 to 60.  [Json] is the type of JSON values the
    handler passes on without looking inside: the [text] of the request
    body and the error body of the provider. *)
Module Server.

Section Handler.
Context {Json : Type}.

(** [process.env]: a variable is a string or undefined. *)
Record ProcessEnv := {
  ELEVENLABS_API_KEY : option jsstring;
  ELEVENLABS_VOICE_ID : option jsstring
}.

(** The two fields the handler takes from [req.body] when it is there; a
    field is a JSON value or undefined. *)
Record Body := {
  text : option Json;
  languageCode : option Json
}.

(** The request to the provider: the URL, the two headers and the three
    fields of the JSON body ([text] is left out by [JSON.stringify] when
    undefined). *)
Record Upstream := {
  url : jsstring;
  method : jsstring;
  content_type : jsstring;
  xi_api_key : jsstring;
  body_text : option Json;
  model_id : jsstring;
  stability : Q;
  similarity_boost : Q
}.

(** What [fetch] gives: a rejection, or a response with its status and
    what [response.json()] and [response.arrayBuffer()] would resolve to
    ([None] when they reject). *)
Inductive Fetched :=
| NetworkError
| Response (status : Z) (json : option Json) (arrayBuffer : option (list Z)).

(** [response.ok] of the Fetch standard. *)
Definition ok (status : Z) : bool := (200 <=? status) && (status <=? 299).

(** The JSON the handler answers with. *)
Inductive Answer :=
| error_message (error : jsstring)
| provider_error (errorData : Json)
| audio (audioData : jsstring).

Record Reply := {
  status : Z;
  answer : Answer
}.

(** A handled request: the requests made to the provider, the number of
    [console.error] calls and the reply. *)
Record Handled := {
  sent : list Upstream;
  console_errors : nat;
  reply : Reply
}.

Definition DEFAULT_VOICE : jsstring := JS.lit "pNInz6obpg8nEmeWsc7t".

(** Line 22. *)
Definition not_configured : Handled :=
  {| sent := []; console_errors := 0;
     reply := {| status := 500;
                 answer := error_message (JS.lit "ElevenLabs API Key not configured") |} |}.

(** Lines 56 to 59, the [catch] block. *)
Definition failed (q : Upstream) : Handled :=
  {| sent := [q]; console_errors := 1;
     reply := {| status := 500;
                 answer := error_message (JS.lit "Failed to generate audio") |} |}.

(** The handler from line 18 on, [req.body] being there. *)
Definition tts_elevenlabs (env : ProcessEnv) (body : Body)
    (fetch : Upstream -> Fetched) : Handled :=
  let voiceId := GeminiService.or_else (ELEVENLABS_VOICE_ID env) DEFAULT_VOICE in
  match ELEVENLABS_API_KEY env with
  | Some apiKey =>
      if JS.truthy apiKey then
        let q := {| url := JS.lit "https://api.elevenlabs.io/v1/text-to-speech/" ++ voiceId;
                    method := JS.lit "POST";
                    content_type := JS.lit "application/json";
                    xi_api_key := apiKey;
                    body_text := text body;
                    model_id := JS.lit "eleven_multilingual_v2";
                    stability := 1 # 2;
                    similarity_boost := 3 # 4 |} in
        match fetch q with
        | NetworkError => failed q
        | Response st json arrayBuffer =>
            if negb (ok st) then
              match json with
              | Some errorData =>
                  {| sent := [q]; console_errors := 1;
                     reply := {| status := st; answer := provider_error errorData |} |}
              | None => failed q
              end
            else
              match arrayBuffer with
              | Some bytes =>
                  {| sent := [q]; console_errors := 0;
                     reply := {| status := 200;
                                 answer := audio (Base64.encode bytes) |} |}
              | None => failed q
              end
        end
      else not_configured
  | None => not_configured
  end.

(** What reaches the route: [express.json()] (line 13) runs first.  When
    it fails (malformed JSON gives the status 400, a body over the size
    limit 413, ...) it passes the error on and the error handler of the
    framework answers with that status: the route handler is not run.
    Otherwise [req.body] is the parsed JSON value, or is left undefined
    when nothing was parsed. *)
Inductive Inbound :=
| parse_error (status : Z)
| no_body
| json_body (body : Body).

(** How the request is served: by the handler, with its reply; by the
    error handler of the framework after a parse error; or not by this
    code, the handler having thrown.  With [req.body] undefined the
    destructuring of line 17, which is outside the [try], throws a
    TypeError before anything else is done. *)
Inductive Served :=
| by_handler (h : Handled)
| by_parser (status : Z)
| handler_threw.

Definition endpoint (env : ProcessEnv) (inbound : Inbound)
    (fetch : Upstream -> Fetched) : Served :=
  match inbound with
  | parse_error status => by_parser status
  | no_body => handler_threw
  | json_body body => by_handler (tts_elevenlabs env body fetch)
  end.


End Handler.

End Server.

(** The state of a freshly mounted [App]. *)
Definition fresh : Hooks :=
  {| selectedLang := ca; isProcessing := false; error := None;
     lastText := None; audioData := None |}.

Definition boot : Store := {| hooks := fresh; audioContextRef := false |}.

(** ** The page: events and captures in flight *)

(** Running a program up to its next [await]. *)
Inductive Status (A : Type) :=
| Finished (c : Completion A)
| Suspended (q : Request) (k : Settled -> Prog A).
Arguments Finished {A} c.
Arguments Suspended {A} q k.

Fixpoint advance {A} (host : HostCall -> bool) (p : Prog A) (s : Store)
  : Status A * Store :=
  match p with
  | Ret a => (Finished (Normal a), s)
  | Throw e => (Finished (Abrupt e), s)
  | Do a k => advance host k (update a s)
  | Read k => advance host (k s) s
  | Emit _ k => advance host k s
  | Host c k => advance host (k (host c)) s
  | Await q k => (Suspended q k, s)
  end.

(** A capture suspended at an await: the request and what follows it. *)
Definition Flight : Type := Request * (Settled -> Prog unit).

Record Page := {
  store : Store;
  chooser : bool;          (* a file chooser is open *)
  flights : list Flight
}.

Definition mounted : Page := {| store := boot; chooser := false; flights := [] |}.

Definition landed (st : Status unit) : list Flight :=
  match st with
  | Suspended q k => [(q, k)]
  | Finished _ => []
  end.

(** The events of the page.  The two capture buttons open the chooser of
    their hidden input and are [disabled] while [isProcessing]; the chooser
    is modal, so no button is clicked while one is open; its closing with a
    file fires [onChange], which is [handleFileChange] of the current
    render.  A suspended capture resumes when its promise settles.  (The
    [await] of [playPCMAudio], a function without awaits of its own,
    resumes before any other event and is not a suspension here.) *)
Inductive event (host : HostCall -> bool) : Page -> Page -> Prop :=
| click_capture u :
    App.capture_disabled (hooks (store u)) = false ->
    chooser u = false ->
    event host u {| store := store u; chooser := true; flights := flights u |}
| chooser_closed u file :
    chooser u = true ->
    event host u
      (let '(st, s') :=
         advance host (App.handleFileChange (hooks (store u)) file) (store u) in
       {| store := s'; chooser := false; flights := landed st ++ flights u |})
| promise_settled u before q k after o :
    flights u = before ++ (q, k) :: after ->
    event host u
      (let '(st, s') := advance host (k o) (store u) in
       {| store := s'; chooser := chooser u;
          flights := before ++ landed st ++ after |})
| language_selected u l :
    event host u {| store := update (setSelectedLang l) (store u);
                    chooser := chooser u; flights := flights u |}
| click_replay u :
    App.replay_disabled (hooks (store u)) = false ->
    event host u
      {| store := snd (advance host (App.replayAudio (hooks (store u))) (store u));
         chooser := chooser u; flights := flights u |}.

Inductive reachable (host : HostCall -> bool) : Page -> Prop :=
| reachable_mounted : reachable host mounted
| reachable_event u u' : reachable host u -> event host u u' -> reachable host u'.

(** ** Notions used to state the properties *)

Module Spec.

(** What the specification means by reading two bytes as a little-endian
    signed 16-bit integer: the bit pattern [hi:lo] in two's complement. *)
Definition int16_le (lo hi : Z) : Z :=
  let u := Z.lor lo (Z.shiftl hi 8) in
  if Z.testbit u 15 then u - 2 ^ 16 else u.

End Spec.

Definition is_byte (b : Z) : Prop := 0 <= b < 256.

Definition is_sextet (i : Z) : Prop := 0 <= i < 64.

(** Outcomes composed as [bind], [try_catch] and [try_finally] compose
    programs. *)
Definition andThen {A B} (o : Outcome A) (k : A -> Store -> Outcome B) : Outcome B :=
  match completion o with
  | Normal a =>
      let o' := k a (final o) in
      {| completion := completion o'; final := final o'; trace := trace o ++ trace o' |}
  | Abrupt e => {| completion := Abrupt e; final := final o; trace := trace o |}
  end.

Definition orElse {A} (o : Outcome A) (h : Exn -> Store -> Outcome A) : Outcome A :=
  match completion o with
  | Normal _ => o
  | Abrupt e =>
      let o' := h e (final o) in
      {| completion := completion o'; final := final o'; trace := trace o ++ trace o' |}
  end.

Definition andFinally {A} (o : Outcome A) (f : Store -> Outcome unit) : Outcome A :=
  let o' := f (final o) in
  {| completion := match completion o' with
                   | Normal _ => completion o
                   | Abrupt e => Abrupt e
                   end;
     final := final o';
     trace := trace o ++ trace o' |}.

(** What [extractText] returns for each way its request settles. *)
Definition recognized (o : Settled) : GeminiService.OCRResult :=
  match o with
  | Fulfilled result_text =>
      let text := GeminiService.or_else (option_map JS.trim result_text) [] in
      if JS.eqb text GeminiService.NO_TEXT_FOUND || negb (JS.truthy text)
      then {| GeminiService.text := [];
              GeminiService.error := Some GeminiService.NO_TEXT_FOUND |}
      else {| GeminiService.text := text; GeminiService.error := None |}
  | Rejected => {| GeminiService.text := [];
                   GeminiService.error := Some GeminiService.API_ERROR |}
  end.

(** What [generateSpeech] returns for each way its request settles. *)
Definition synthesized (o : Settled) : option jsstring :=
  match o with
  | Fulfilled data => GeminiService.or_null data
  | Rejected => None
  end.

(** Texts handed to the speech synthesis of the host, in order. *)
Definition spoken (t : list Event) : list jsstring :=
  flat_map (fun e => match e with EvSpeechSpeak text _ _ => [text] | _ => [] end) t.

(** Texts sent to the speech model, in order. *)
Definition synthesis_requests (t : list Event) : list jsstring :=
  flat_map (fun e => match e with
                     | EvRequest (generateContent_TTS text _) => [text]
                     | _ => []
                     end) t.

(** Web Audio calls made, in order. *)
Definition host_calls (t : list Event) : list HostCall :=
  flat_map (fun e => match e with EvHost c _ => [c] | _ => [] end) t.

(** Sample buffers whose playback started. *)
Definition played (t : list Event) : list (list spec_float) :=
  flat_map (fun e => match e with
                     | EvHost (start_buffer _ samples _) true => [samples]
                     | _ => []
                     end) t.

(** A file, a session state and environments to run the code on. *)
Definition photo : File := {| type := JS.lit "image/jpeg"; size := 1 |}.

(** An environment given by how the three requests settle and by whether
    the Web Audio calls return. *)
Definition responses (read ocr tts : Settled) (audio : bool) : Env :=
  {| settle := fun q => match q with
                        | readAsDataURL _ => read
                        | generateContent_OCR _ _ _ => ocr
                        | generateContent_TTS _ _ => tts
                        end;
     host := fun _ => audio |}.

Definition with_lang (l : LangKey) (h : Hooks) : Hooks :=
  update_hooks (setSelectedLang l) h.

Definition with_text (t : jsstring) (h : Hooks) : Hooks :=
  update_hooks (setLastText (Some t)) h.

(** What the handler of [playPCMAudio] does after logging: it speaks the
    text of its render, when there is one. *)
Definition fallback_events (r : Hooks) : list Event :=
  match lastText r with
  | Some t =>
      if JS.truthy t
      then [EvSpeechCancel;
            EvSpeechSpeak t (code (App.langConfig r)) (9 # 10)]
      else []
  | None => []
  end.

(** The creation of the audio context, when the ref holds none. *)
Definition context_events (env : Env) (s : Store) : list Event :=
  if audioContextRef s then []
  else [EvHost (new_AudioContext 24000) (host env (new_AudioContext 24000))].

Definition context_ready (env : Env) (s : Store) : bool :=
  audioContextRef s || host env (new_AudioContext 24000).

(** The events of [playPCMAudio] once a context is at hand. *)
Definition decode_and_start (env : Env) (r : Hooks) (base64Data : jsstring) : list Event :=
  match PCM.decode base64Data with
  | inl _ => EvConsoleError :: fallback_events r
  | inr [] => EvConsoleError :: fallback_events r
  | inr (x :: xs) =>
      EvHost (start_buffer 1 (x :: xs) 24000) (host env (start_buffer 1 (x :: xs) 24000))
        :: (if host env (start_buffer 1 (x :: xs) 24000) then []
            else EvConsoleError :: fallback_events r)
  end.

(** The four resets at the head of [processImage]. *)
Definition reset (s : Store) : Store :=
  update (setAudioData None)
    (update (setLastText None)
       (update (setError None)
          (update (setIsProcessing true) s))).

(** The events of [speakStatus]. *)
Definition speak_events (r : Hooks) (text : jsstring) : list Event :=
  [EvSpeechCancel; EvSpeechSpeak text (code (App.langConfig r)) (9 # 10)].

(** The events of a client call: the request, and the log of its handler
    when the request is rejected. *)
Definition settle_log (env : Env) (q : Request) : list Event :=
  EvRequest q :: match settle env q with
                 | Fulfilled _ => []
                 | Rejected => [EvConsoleError]
                 end.

(** The two model requests of a capture, as [processImage] builds them. *)
Definition ocr_request (r : Hooks) (file : File) (base64Data : option jsstring) : Request :=
  generateContent_OCR base64Data (type file) (prompt (App.langConfig r)).

Definition tts_request (r : Hooks) (text : jsstring) : Request :=
  generateContent_TTS text (voice (App.langConfig r)).

(** The guard [ocrResult.error || !ocrResult.text] of [processImage]. *)
Definition no_text (ocrResult : GeminiService.OCRResult) : bool :=
  JS.truthy_opt (GeminiService.error ocrResult)
  || negb (JS.truthy (GeminiService.text ocrResult)).

(** The [isProcessing] flag after an action. *)
Definition flag_after (a : Action) (b : bool) : bool :=
  match a with
  | setIsProcessing b' => b'
  | _ => b
  end.

(** [isProcessing] is [true] at every await the program can reach, from
    the flag [b] it starts with. *)
Fixpoint busy_at_awaits {A} (p : Prog A) (b : bool) : Prop :=
  match p with
  | Ret _ => True
  | Throw _ => True
  | Do a k => busy_at_awaits k (flag_after a b)
  | Read k => forall s, busy_at_awaits (k s) b
  | Emit _ k => busy_at_awaits k b
  | Host _ k => forall returned, busy_at_awaits (k returned) b
  | Await _ k => b = true /\ forall o, busy_at_awaits (k o) true
  end.

(** The invariant of the page: no capture in flight, or exactly one, with
    the flag set, no chooser open, and the flag kept at its later awaits. *)
Definition single_flight (u : Page) : Prop :=
  flights u = []
  \/ exists q k,
      flights u = [(q, k)]
      /\ isProcessing (hooks (store u)) = true
      /\ chooser u = false
      /\ forall o, busy_at_awaits (k o) true.

(** A capture of [photo] on the freshly mounted page, suspended at the
    read of the image. *)
Definition capturing : Page :=
  let '(st, s') := advance (fun _ => true) (App.handleFileChange fresh (Some photo)) boot in
  {| store := s'; chooser := false; flights := landed st ++ [] |}.

(** Strings made of code units that [trim] strips. *)
Definition all_space (s : jsstring) : bool := forallb JS.is_space s.

(** A sample a 16-bit integer can give: a finite float whose value lies
    in the interval from -1 (included) to 1 (excluded). *)
Definition unit_sample (x : spec_float) : Prop :=
  exists q, PCM.SF2Q x = Some q /\ (-1 <= q)%Q /\ (q < 1)%Q.

(** Promises awaited, in order. *)
Definition requests (t : list Event) : list Request :=
  flat_map (fun e => match e with EvRequest q => [q] | _ => [] end) t.

(** Utterances handed to the speech synthesis, each with the language and
    the rate set on it. *)
Definition utterances (t : list Event) : list (jsstring * jsstring * Q) :=
  flat_map (fun e => match e with
                     | EvSpeechSpeak text lang rate => [(text, lang, rate)]
                     | _ => []
                     end) t.

(** Every [speak] of the trace comes right after a [cancel]. *)
Fixpoint cancel_before_speak (t : list Event) : bool :=
  match t with
  | EvSpeechCancel :: EvSpeechSpeak _ _ _ :: t' => cancel_before_speak t'
  | EvSpeechSpeak _ _ _ :: _ => false
  | _ :: t' => cancel_before_speak t'
  | [] => true
  end.

(** Traces of requests and console messages only. *)
Definition quiet (t : list Event) : bool :=
  forallb (fun e => match e with
                    | EvRequest _ | EvConsoleError => true
                    | _ => false
                    end) t.

(** How many audio contexts a trace creates, or tries to. *)
Definition context_creations (t : list Event) : nat :=
  length (filter (fun c => match c with
                           | new_AudioContext _ => true
                           | _ => false
                           end) (host_calls t)).

(** Whether [playPCMAudio] gets to start its buffer: a context is at hand,
    the payload decodes to at least one sample, and the start returns. *)
Definition starts (env : Env) (s : Store) (base64Data : jsstring) : bool :=
  context_ready env s
  && match PCM.decode base64Data with
     | inr (x :: xs) => host env (start_buffer 1 (x :: xs) 24000)
     | _ => false
     end.

(** *** The cells between captures and during one *)





(** ** Facts about base64 *)

Lemma list_ind3 {A : Type} (P : list A -> Prop) :
  P [] -> (forall a, P [a]) -> (forall a b, P [a; b]) ->
  (forall a b c l, P l -> P (a :: b :: c :: l)) ->
  forall l, P l.
Proof.
  intros P0 P1 P2 P3. fix IH 1.
  intros [|a [|b [|c l]]]; [exact P0 | apply P1 | apply P2 | apply P3, IH].
Qed.

Ltac case_cmp :=
  repeat (match goal with
          | |- context [?a <? ?b] => destruct (Z.ltb_spec a b)
          | |- context [?a <=? ?b] => destruct (Z.leb_spec a b)
          | |- context [?a =? ?b] => destruct (Z.eqb_spec a b)
          end; cbn [andb orb negb]).

Lemma index_of_char_of i : is_sextet i -> Base64.index_of (Base64.char_of i) = Some i.
Proof.
  unfold is_sextet, Base64.char_of. intros H.
  case_cmp; unfold Base64.index_of; case_cmp; try lia; f_equal; lia.
Qed.

Lemma char_of_not_space i :
  is_sextet i -> Base64.is_ascii_whitespace (Base64.char_of i) = false.
Proof.
  unfold is_sextet, Base64.char_of. intros H.
  case_cmp; unfold Base64.is_ascii_whitespace; case_cmp; try lia; reflexivity.
Qed.

Lemma char_of_not_pad i : is_sextet i -> Base64.char_of i <> 61.
Proof.
  unfold is_sextet, Base64.char_of. intros H.
  case_cmp; lia.
Qed.

Lemma sextets_range bs : Forall is_byte bs -> Forall is_sextet (Base64.sextets bs).
Proof.
  induction bs as [| a | a b | a b c l IH] using list_ind3; intros H.
  - constructor.
  - inversion_clear H. unfold is_byte in *. cbn.
    repeat constructor; unfold is_sextet; Z.div_mod_to_equations; lia.
  - inversion_clear H as [|? ? Ha H']. inversion_clear H' as [|? ? Hb _].
    unfold is_byte in *. cbn.
    repeat constructor; unfold is_sextet; Z.div_mod_to_equations; lia.
  - inversion_clear H as [|? ? Ha H']. inversion_clear H' as [|? ? Hb H''].
    inversion_clear H'' as [|? ? Hc Hl].
    unfold is_byte in *. cbn [Base64.sextets].
    repeat (constructor; [unfold is_sextet; Z.div_mod_to_equations; lia|]).
    auto.
Qed.

Lemma octets_sextets bs : Forall is_byte bs -> Base64.octets (Base64.sextets bs) = bs.
Proof.
  induction bs as [| a | a b | a b c l IH] using list_ind3; intros H.
  - reflexivity.
  - inversion_clear H. unfold is_byte in *. cbn.
    f_equal. Z.div_mod_to_equations; lia.
  - inversion_clear H as [|? ? Ha H']. inversion_clear H' as [|? ? Hb _].
    unfold is_byte in *. cbn.
    f_equal; [|f_equal]; Z.div_mod_to_equations; lia.
  - inversion_clear H as [|? ? Ha H']. inversion_clear H' as [|? ? Hb H''].
    inversion_clear H'' as [|? ? Hc Hl].
    unfold is_byte in *. cbn [Base64.sextets Base64.octets].
    rewrite (IH Hl).
    f_equal; [|f_equal; [|f_equal]]; Z.div_mod_to_equations; lia.
Qed.

Lemma filter_id {A} (f : A -> bool) (l : list A) :
  Forall (fun x => f x = true) l -> filter f l = l.
Proof.
  induction 1 as [|x l Hx _ IH]; cbn; [reflexivity|].
  rewrite Hx, IH. reflexivity.
Qed.

Lemma indexes_map_char_of l :
  Forall is_sextet l -> Base64.indexes (List.map Base64.char_of l) = Some l.
Proof.
  induction 1 as [|i l Hi _ IH]; cbn; [reflexivity|].
  rewrite (index_of_char_of i Hi), IH. reflexivity.
Qed.

Lemma padding_shape n :
  Base64.padding n = [] \/ Base64.padding n = [Base64.pad]
  \/ Base64.padding n = [Base64.pad; Base64.pad].
Proof.
  unfold Base64.padding. destruct (n mod 3)%nat as [|[|[|?]]]; auto.
Qed.

Lemma padding_step n : Base64.padding (S (S (S n))) = Base64.padding n.
Proof.
  unfold Base64.padding.
  replace (S (S (S n))) with (n + 1 * 3)%nat by lia.
  rewrite Nat.Div0.mod_add. reflexivity.
Qed.

Lemma sextets_length bs :
  ((length (Base64.sextets bs) + length (Base64.padding (length bs))) mod 4 = 0
   /\ length (Base64.sextets bs) mod 4 <> 1)%nat.
Proof.
  induction bs as [| a | a b | a b c l [IH1 IH2]] using list_ind3;
    try (cbn; split; [reflexivity | discriminate]).
  cbn [Base64.sextets length]. rewrite padding_step. split.
  - replace (S (S (S (S (length (Base64.sextets l))))) + length (Base64.padding (length l)))%nat
      with (length (Base64.sextets l) + length (Base64.padding (length l)) + 1 * 4)%nat by lia.
    rewrite Nat.Div0.mod_add. exact IH1.
  - replace (S (S (S (S (length (Base64.sextets l))))))
      with (length (Base64.sextets l) + 1 * 4)%nat by lia.
    rewrite Nat.Div0.mod_add. exact IH2.
Qed.

Lemma rev_head_in {A} (x : list A) (c : A) (r : list A) : rev x = c :: r -> In c x.
Proof.
  intros H. apply in_rev. rewrite H. left. reflexivity.
Qed.

Lemma strip_padding_encode x n :
  Forall (fun c => c <> Base64.pad) x ->
  (length (x ++ Base64.padding n) mod 4 = 0)%nat ->
  Base64.strip_padding (x ++ Base64.padding n) = x.
Proof.
  intros Hx Hlen. unfold Base64.strip_padding. rewrite Hlen. cbn [Nat.eqb].
  rewrite rev_app_distr.
  assert (Hhd : forall c r, rev x = c :: r -> (c =? Base64.pad) = false).
  { intros c r E. apply Z.eqb_neq. rewrite Forall_forall in Hx.
    apply Hx. eapply rev_head_in; eauto. }
  destruct (padding_shape n) as [E | [E | E]]; rewrite E; cbn [rev app].
  - rewrite app_nil_r. destruct (rev x) as [|c r] eqn:Er; [reflexivity|].
    rewrite (Hhd c r eq_refl). reflexivity.
  - rewrite Z.eqb_refl. destruct (rev x) as [|c r] eqn:Er.
    + rewrite <- (rev_involutive x), Er. reflexivity.
    + rewrite (Hhd c r eq_refl). rewrite <- Er. apply rev_involutive.
  - rewrite !Z.eqb_refl. apply rev_involutive.
Qed.

Lemma atob_encode_bytes bs :
  Forall is_byte bs -> Base64.atob (Base64.encode bs) = Some bs.
Proof.
  intros Hb. pose proof (sextets_range bs Hb) as Hs.
  destruct (sextets_length bs) as [L1 L2].
  unfold Base64.atob, Base64.encode.
  rewrite filter_id.
  2:{ apply Forall_app. split.
      - apply Forall_map. eapply Forall_impl; [|exact Hs].
        intros i Hi. cbn. rewrite (char_of_not_space i Hi). reflexivity.
      - destruct (padding_shape (length bs)) as [E | [E | E]]; rewrite E;
          repeat constructor. }
  rewrite strip_padding_encode.
  - rewrite length_map.
    destruct (length (Base64.sextets bs) mod 4 =? 1)%nat eqn:E.
    + apply Nat.eqb_eq in E. contradiction.
    + rewrite (indexes_map_char_of _ Hs), (octets_sextets bs Hb). reflexivity.
  - apply Forall_map. eapply Forall_impl; [|exact Hs].
    intros i Hi. cbn. apply char_of_not_pad, Hi.
  - rewrite length_app, length_map. exact L1.
Qed.

(** [atob] inverts the standard encoding on every byte sequence. *)
Lemma atob_encode bs : Forall is_byte bs -> Base64.atob (Base64.encode bs) = Some bs.
Proof. exact (atob_encode_bytes bs). Qed.

Lemma atob_encode_witness :
  Base64.atob (Base64.encode [72; 111; 108; 97]) = Some [72; 111; 108; 97].
Proof.
  apply (atob_encode [72; 111; 108; 97]).
  repeat constructor; unfold is_byte; lia.
Defined.


(** ** Facts about the sample conversion *)

Lemma list_ind2 {A : Type} (P : list A -> Prop) :
  P [] -> (forall a, P [a]) -> (forall a b l, P l -> P (a :: b :: l)) ->
  forall l, P l.
Proof.
  intros P0 P1 P2. fix IH 1.
  intros [|a [|b l]]; [exact P0 | apply P1 | apply P2, IH].
Qed.

Lemma Uint8Array_from_bytes bs : Forall is_byte bs -> PCM.Uint8Array_from bs = bs.
Proof.
  induction 1 as [|b l Hb _ IH]; cbn; [reflexivity|].
  unfold PCM.Uint8Array_from in IH. rewrite IH. f_equal.
  apply Z.mod_small. exact Hb.
Qed.

Lemma int16_elements_length bs :
  Nat.even (length bs) = true ->
  length bs = (2 * length (PCM.int16_elements bs))%nat.
Proof.
  induction bs as [| a | a b l IH] using list_ind2; intros H.
  - reflexivity.
  - discriminate.
  - cbn [length PCM.int16_elements]. cbn in H. rewrite (IH H). lia.
Qed.

Lemma int16_elements_nth bs : forall i,
  (2 * i + 1 < length bs)%nat ->
  nth_error (PCM.int16_elements bs) i
  = Some (PCM.signed16 (nth (2 * i) bs 0 + 256 * nth (2 * i + 1) bs 0)).
Proof.
  induction bs as [| a | a b l IH] using list_ind2; intros i H.
  - cbn in H. lia.
  - cbn in H. lia.
  - destruct i as [|i].
    + reflexivity.
    + cbn [PCM.int16_elements nth_error].
      replace (2 * S i)%nat with (S (S (2 * i))) by lia.
      cbn [length] in H. rewrite IH by lia.
      replace (S (S (2 * i)) + 1)%nat with (S (S (2 * i + 1))) by lia.
      reflexivity.
Qed.

Lemma byte_high_bits b n : is_byte b -> 8 <= n -> Z.testbit b n = false.
Proof.
  intros [H0 H1] Hn. destruct (Z.eq_dec b 0) as [->|Hb]; [apply Z.bits_0|].
  apply Z.bits_above_log2; [lia|].
  assert (Z.log2 b < 8); [|lia].
  apply Z.log2_lt_pow2; [lia|]. change (2 ^ 8) with 256. lia.
Qed.

Lemma lor_shiftl_bytes lo hi :
  is_byte lo -> is_byte hi -> Z.lor lo (Z.shiftl hi 8) = lo + 256 * hi.
Proof.
  intros Hlo Hhi.
  assert (E : Z.land lo (Z.shiftl hi 8) = 0).
  { apply Z.bits_inj'. intros n Hn. rewrite Z.land_spec, Z.bits_0.
    destruct (Z.lt_ge_cases n 8).
    - rewrite Z.shiftl_spec_low by assumption. apply andb_false_r.
    - rewrite (byte_high_bits lo n) by assumption. reflexivity. }
  rewrite <- (Z.lxor_lor _ _ E), <- (Z.add_nocarry_lxor _ _ E).
  rewrite Z.shiftl_mul_pow2 by lia. change (2 ^ 8) with 256. lia.
Qed.

Lemma signed16_int16_le lo hi :
  is_byte lo -> is_byte hi -> PCM.signed16 (lo + 256 * hi) = Spec.int16_le lo hi.
Proof.
  intros Hlo Hhi. unfold Spec.int16_le, PCM.signed16.
  rewrite (lor_shiftl_bytes lo hi Hlo Hhi).
  unfold is_byte in *. set (u := lo + 256 * hi).
  assert (Hu : 0 <= u < 65536) by (unfold u; lia).
  destruct (Z.ltb_spec u 32768) as [Hlt|Hge].
  - destruct (Z.testbit u 15) eqn:E; [|reflexivity].
    apply Z.testbit_true in E; [|lia]. change (2 ^ 15) with 32768 in E.
    rewrite Z.div_small in E by lia. discriminate.
  - destruct (Z.testbit u 15) eqn:E; [reflexivity|].
    assert (T : Z.testbit u 15 = true); [|congruence].
    apply Z.testbit_true; [lia|]. change (2 ^ 15) with 32768.
    Z.div_mod_to_equations; lia.
Qed.

Lemma signed16_range u : 0 <= u < 65536 -> -32768 <= PCM.signed16 u < 32768.
Proof.
  unfold PCM.signed16. intros H. destruct (Z.ltb_spec u 32768); lia.
Qed.

(** *** The division by 32768.0 and the binary32 store round nothing

    A 16-bit integer has at most 16 significant bits.  As a binary64 value
    its mantissa is the integer shifted left to 53 bits; dividing by
    32768.0, whose mantissa is [2^52], only lowers the exponent by 15; and
    the binary32 store drops 29 bits of the mantissa, all of them zero. *)

Lemma div_eucl_pow52 m : Z.div_eucl m 4503599627370496 = (Z.shiftr m 52, Z.land m (Z.ones 52)).
Proof.
  rewrite Z.shiftr_div_pow2, Z.land_ones by lia.
  change (2 ^ 52) with 4503599627370496.
  unfold Z.div, Z.modulo. destruct (Z.div_eucl m 4503599627370496). reflexivity.
Qed.

(** Rounding an exact value whose mantissa is already in the format. *)
Lemma round_aux_exact prec emax s m e :
  fexp prec emax (Zpos (digits2_pos m) + e) = e ->
  (e <=? emax - prec) = true ->
  binary_round_aux prec emax s (Zpos m) e loc_Exact = S754_finite s m e.
Proof.
  intros Hc He. unfold binary_round_aux, shr_fexp, shr.
  cbn [Zdigits2 shr_record_of_loc]. rewrite Hc, Z.sub_diag.
  cbn [shr_m loc_of_shr_record round_nearest_even Zdigits2 shr_record_of_loc].
  rewrite Hc, Z.sub_diag. cbn [shr_m]. rewrite He. reflexivity.
Qed.

Lemma digits2_iter_xO p k :
  digits2_pos (Pos.iter xO p k) = (digits2_pos p + k)%positive.
Proof.
  induction k as [|k IH] using Pos.peano_ind.
  - cbn. rewrite Pos.add_1_r. reflexivity.
  - rewrite Pos.iter_succ. cbn [digits2_pos]. rewrite IH, Pos.add_succ_r. reflexivity.
Qed.

(** Rounding a mantissa that needs [k] more bits shifts it left. *)
Lemma binary_round_shl prec emax s m e k :
  fexp prec emax (Zpos (digits2_pos m) + e) - e = Zneg k ->
  fexp prec emax (Zpos (digits2_pos m + k) + (e - Zpos k)) = e - Zpos k ->
  (e - Zpos k <=? emax - prec) = true ->
  binary_round prec emax s m e = S754_finite s (Pos.iter xO m k) (e - Zpos k).
Proof.
  intros Hk Hc He. unfold binary_round, shl_align. rewrite Hk.
  assert (E : fexp prec emax (Z.pos (digits2_pos m) + e) = e - Zpos k) by lia.
  rewrite E. apply round_aux_exact; [rewrite digits2_iter_xO|]; assumption.
Qed.

Lemma iter_pos_comm {A} (f : A -> A) n : forall x, iter_pos f n (f x) = f (iter_pos f n x).
Proof.
  induction n as [n IH|n IH|]; intros x; cbn [iter_pos].
  - rewrite !IH. reflexivity.
  - rewrite !IH. reflexivity.
  - reflexivity.
Qed.

Lemma iter_pos_succ {A} (f : A -> A) n x : iter_pos f (Pos.succ n) x = iter_pos f n (f x).
Proof.
  revert x. induction n as [n IH|n IH|]; intros x; cbn [iter_pos Pos.succ].
  - rewrite !IH. rewrite !iter_pos_comm. reflexivity.
  - reflexivity.
  - reflexivity.
Qed.

Lemma shr_exact q n :
  iter_pos shr_1 n {| shr_m := Zpos (Pos.iter xO q n); shr_r := false; shr_s := false |}
  = {| shr_m := Zpos q; shr_r := false; shr_s := false |}.
Proof.
  induction n as [|n IH] using Pos.peano_ind.
  - reflexivity.
  - rewrite iter_pos_succ, Pos.iter_succ. cbn [shr_1 orb]. exact IH.
Qed.

(** Rounding a mantissa with [n] bits too many, all zero, drops them. *)
Lemma binary_round_shr prec emax s q n e :
  fexp prec emax (Zpos (digits2_pos q + n) + e) - e = Zpos n ->
  fexp prec emax (Zpos (digits2_pos q) + (e + Zpos n)) = e + Zpos n ->
  (e + Zpos n <=? emax - prec) = true ->
  binary_round prec emax s (Pos.iter xO q n) e = S754_finite s q (e + Zpos n).
Proof.
  intros Hn Hc He. unfold binary_round, shl_align.
  rewrite digits2_iter_xO, Hn.
  unfold binary_round_aux, shr_fexp, shr.
  cbn [Zdigits2 shr_record_of_loc]. rewrite digits2_iter_xO, Hn, shr_exact.
  cbn [shr_m loc_of_shr_record round_nearest_even Zdigits2 shr_record_of_loc].
  rewrite Hc, Z.sub_diag. cbn [shr_m]. rewrite He. reflexivity.
Qed.

(** Dividing a normal binary64 value by 32768.0. *)
Lemma SFdiv_32768_exact s m e :
  digits2_pos m = 53%positive -> -1058 <= e <= 986 ->
  SFdiv 53 1024 (S754_finite s m e) (S754_finite false 4503599627370496 (-37))
  = S754_finite s m (e - 15).
Proof.
  intros Hd He. unfold SFdiv, SFdiv_core_binary.
  change (Zdigits2 (Zpos 4503599627370496)) with 53.
  cbn [Zdigits2]. rewrite Hd.
  replace (Z.min (fexp 53 1024 (53 + e - (53 + -37))) (e - -37)) with (e - 16)
    by (unfold fexp, emin; lia).
  replace (e - -37 - (e - 16)) with 53 by lia.
  rewrite div_eucl_pow52.
  rewrite Z.shiftr_shiftl_l by lia.
  replace (Z.land (Z.shiftl (Zpos m) 53) (Z.ones 52)) with 0.
  2:{ rewrite Z.land_ones, Z.shiftl_mul_pow2 by lia.
      replace (2 ^ 53) with (2 * 2 ^ 52) by reflexivity.
      rewrite Z.mul_assoc, Z.mod_mul by lia. reflexivity. }
  change (new_location 4503599627370496 0) with loc_Exact.
  change (Z.shiftl (Zpos m) (53 - 52)) with (Zpos (xO m)).
  unfold binary_round_aux, shr_fexp, shr.
  cbn [Zdigits2 digits2_pos shr_record_of_loc]. rewrite Hd.
  replace (fexp 53 1024 (Zpos (Pos.succ 53) + (e - 16)) - (e - 16)) with 1
    by (unfold fexp, emin; lia).
  cbn [iter_pos shr_1 orb shr_m loc_of_shr_record round_nearest_even Zdigits2
       shr_record_of_loc].
  rewrite Hd.
  replace (fexp 53 1024 (53 + (e - 16 + 1)) - (e - 16 + 1)) with 0
    by (unfold fexp, emin; lia).
  cbn [shr_m].
  replace (e - 16 + 1 <=? 1024 - 53) with true by (symmetry; apply Z.leb_le; lia).
  rewrite xorb_false_r. f_equal. lia.
Qed.

Lemma digits2_pos_size p : digits2_pos p = Pos.size p.
Proof. induction p; cbn; congruence. Qed.

Lemma digits2_pos_int16 p : Zpos p <= 32768 -> (digits2_pos p <= 16)%positive.
Proof.
  intros Hp. rewrite digits2_pos_size.
  destruct (Pos.leb_spec (Pos.size p) 16) as [H|H]; [exact H|exfalso].
  pose proof (Pos.size_le p) as Hs.
  apply Pos2Z.pos_le_pos in Hs. rewrite Pos2Z.inj_pow in Hs.
  assert (H17 : 2 ^ 17 <= 2 ^ Zpos (Pos.size p)) by (apply Z.pow_le_mono_r; lia).
  change (2 ^ 17) with 131072 in H17. lia.
Qed.

Lemma iter_xO_value p k : Zpos (Pos.iter xO p k) = Zpos p * 2 ^ Zpos k.
Proof.
  induction k as [|k IH] using Pos.peano_ind.
  - cbn. lia.
  - rewrite Pos.iter_succ, Pos2Z.inj_xO, IH, Pos2Z.inj_succ, Z.pow_succ_r by lia. lia.
Qed.

(** The sample of the integer of sign [s] and magnitude [p]. *)
Lemma sample_of_magnitude s p :
  Zpos p <= 32768 ->
  PCM.binary32_of_binary64
    (SFdiv 53 1024 (binary_round 53 1024 s p 0) (PCM.binary64_of_Z 32768))
  = S754_finite s (Pos.iter xO p (24 - digits2_pos p))
      (Zneg (39 - digits2_pos p)).
Proof.
  intros Hp. pose proof (digits2_pos_int16 p Hp) as Hd.
  set (d := digits2_pos p) in *.
  change (PCM.binary64_of_Z 32768) with (S754_finite false 4503599627370496 (-37)).
  rewrite (binary_round_shl 53 1024 s p 0 (53 - d)).
  2:{ fold d. unfold fexp, emin. lia. }
  2:{ fold d. unfold fexp, emin. lia. }
  2:{ apply Z.leb_le. lia. }
  rewrite SFdiv_32768_exact.
  2:{ rewrite digits2_iter_xO. fold d. lia. }
  2:{ lia. }
  cbn [PCM.binary32_of_binary64].
  replace (53 - d)%positive with (29 + (24 - d))%positive by lia.
  rewrite Pos.iter_add.
  rewrite (binary_round_shr 24 128 s (Pos.iter xO p (24 - d)) 29).
  - f_equal. lia.
  - rewrite digits2_iter_xO. fold d. unfold fexp, emin. lia.
  - rewrite digits2_iter_xO. fold d. unfold fexp, emin. lia.
  - apply Z.leb_le. lia.
Qed.

(** Every sample is exactly its integer over 32768. *)
Lemma sample_of_int16_exact v :
  -32768 <= v < 32768 ->
  exists q, PCM.SF2Q (PCM.sample_of_int16 v) = Some q /\ (q == v # 32768)%Q.
Proof.
  intros Hv.
  assert (G : forall s p, Zpos p <= 32768 ->
            exists q, PCM.SF2Q (S754_finite s (Pos.iter xO p (24 - digits2_pos p))
                              (Zneg (39 - digits2_pos p))) = Some q
                      /\ (q == (if s then Zneg p else Zpos p) # 32768)%Q).
  { intros s p Hp. pose proof (digits2_pos_int16 p Hp) as Hd.
    eexists. split; [reflexivity|].
    unfold Qeq. cbn [Qnum Qden].
    rewrite Pos2Z.inj_pow.
    assert (E : Zpos (Pos.iter xO p (24 - digits2_pos p)) * 32768
                = Zpos p * 2 ^ Zpos (39 - digits2_pos p)).
    { rewrite iter_xO_value.
      replace (Zpos (39 - digits2_pos p)) with (Zpos (24 - digits2_pos p) + 15) by lia.
      rewrite Z.pow_add_r by lia. change (2 ^ 15) with 32768. lia. }
    destruct s; [|exact E].
    rewrite <- !Pos2Z.opp_pos. lia. }
  destruct v as [|p|p].
  - exists 0%Q. split; reflexivity.
  - unfold PCM.sample_of_int16, PCM.binary64_of_Z at 1, binary_normalize.
    rewrite sample_of_magnitude by lia. apply (G false). lia.
  - unfold PCM.sample_of_int16, PCM.binary64_of_Z at 1, binary_normalize.
    rewrite sample_of_magnitude by lia. apply (G true). lia.
Qed.

(** ** Running composed programs *)

Lemma outcome_eta {A} (o : Outcome A) :
  {| completion := completion o; final := final o; trace := trace o |} = o.
Proof. destruct o. reflexivity. Qed.

Lemma andThen_logged {A B} e (o : Outcome A) (k : A -> Store -> Outcome B) :
  andThen (logged e o) k = logged e (andThen o k).
Proof. unfold andThen, logged. cbn. destruct (completion o); reflexivity. Qed.

Lemma orElse_logged {A} e (o : Outcome A) h :
  orElse (logged e o) h = logged e (orElse o h).
Proof. destruct o as [[a|x] s t]; reflexivity. Qed.

Lemma andFinally_logged {A} e (o : Outcome A) f :
  andFinally (logged e o) f = logged e (andFinally o f).
Proof. reflexivity. Qed.

Lemma run_bind env {A B} (p : Prog A) (f : A -> Prog B) : forall s,
  run env (bind p f) s = andThen (run env p s) (fun a s' => run env (f a) s').
Proof.
  induction p as [a|e|a k IH|k IH|e k IH|c k IH|r k IH]; intros s; cbn [bind run].
  - unfold andThen. cbn. symmetry. apply outcome_eta.
  - reflexivity.
  - apply IH.
  - apply IH.
  - rewrite IH, andThen_logged. reflexivity.
  - rewrite IH, andThen_logged. reflexivity.
  - rewrite IH, andThen_logged. reflexivity.
Qed.

Lemma run_try_catch env {A} (p : Prog A) (h : Exn -> Prog A) : forall s,
  run env (try_catch p h) s = orElse (run env p s) (fun e s' => run env (h e) s').
Proof.
  induction p as [a|e|a k IH|k IH|e k IH|c k IH|r k IH]; intros s; cbn [try_catch run].
  - reflexivity.
  - unfold orElse. cbn. symmetry. apply outcome_eta.
  - apply IH.
  - apply IH.
  - rewrite IH, orElse_logged. reflexivity.
  - rewrite IH, orElse_logged. reflexivity.
  - rewrite IH, orElse_logged. reflexivity.
Qed.

Lemma run_try_finally env {A} (p : Prog A) (f : Prog unit) : forall s,
  run env (try_finally p f) s = andFinally (run env p s) (fun s' => run env f s').
Proof.
  induction p as [a|e|a k IH|k IH|e k IH|c k IH|r k IH]; intros s;
    cbn [try_finally run].
  - rewrite run_bind. unfold andThen, andFinally. cbn.
    destruct (completion (run env f s)); cbn; rewrite ?app_nil_r; reflexivity.
  - rewrite run_bind. unfold andThen, andFinally. cbn.
    destruct (completion (run env f s)); cbn; rewrite ?app_nil_r; reflexivity.
  - apply IH.
  - apply IH.
  - rewrite IH, andFinally_logged. reflexivity.
  - rewrite IH, andFinally_logged. reflexivity.
  - rewrite IH, andFinally_logged. reflexivity.
Qed.

Arguments PCM.decode : simpl never.
Arguments JS.trim : simpl never.
Arguments JS.eqb : simpl never.
Arguments JS.lit : simpl never.
Arguments App.langConfig : simpl never.
Arguments App.generic_error : simpl never.
Arguments GeminiService.NO_TEXT_FOUND : simpl never.
Arguments GeminiService.API_ERROR : simpl never.

Ltac run_simpl :=
  repeat (rewrite ?run_bind, ?run_try_catch, ?run_try_finally;
          cbn [run bind try_catch try_finally await host_call do_ emit
               andThen orElse andFinally logged completion final trace app]).

(** ** Facts about [trim] *)

Lemma trimStart_split s :
  exists pre, s = pre ++ JS.trimStart s /\ all_space pre = true.
Proof.
  induction s as [|c s (pre & E & Hp)]; [exists []; split; reflexivity|].
  cbn [JS.trimStart]. destruct (JS.is_space c) eqn:Hc.
  - exists (c :: pre). unfold all_space in *. cbn [forallb app].
    rewrite Hc, Hp. split; [congruence | reflexivity].
  - exists []. split; reflexivity.
Qed.

Lemma trimStart_fixed c s : JS.is_space c = false -> JS.trimStart (c :: s) = c :: s.
Proof. intros H. cbn [JS.trimStart]. rewrite H. reflexivity. Qed.

Lemma trimStart_head s :
  JS.trimStart s = [] \/ exists c t, JS.trimStart s = c :: t /\ JS.is_space c = false.
Proof.
  induction s as [|c s IH]; [left; reflexivity|].
  cbn [JS.trimStart]. destruct (JS.is_space c) eqn:Hc; [exact IH|].
  right. exists c, s. auto.
Qed.

Lemma trimStart_snoc l c :
  JS.is_space c = false -> JS.trimStart (l ++ [c]) = JS.trimStart l ++ [c].
Proof.
  intros Hc. induction l as [|x l IH]; cbn [app JS.trimStart].
  - rewrite Hc. reflexivity.
  - destruct (JS.is_space x); [exact IH | reflexivity].
Qed.

Lemma all_space_rev s : all_space (rev s) = all_space s.
Proof.
  unfold all_space. induction s as [|c s IH]; [reflexivity|].
  cbn [rev forallb]. rewrite forallb_app, IH. cbn. rewrite andb_true_r.
  apply andb_comm.
Qed.

Lemma trimEnd_split s :
  exists post, s = JS.trimEnd s ++ post /\ all_space post = true.
Proof.
  unfold JS.trimEnd. destruct (trimStart_split (rev s)) as (pre & E & Hp).
  exists (rev pre). rewrite all_space_rev. split; [|exact Hp].
  rewrite <- rev_app_distr, <- E, rev_involutive. reflexivity.
Qed.

Lemma trimEnd_cons c s :
  JS.is_space c = false -> JS.trimEnd (c :: s) = c :: JS.trimEnd s.
Proof.
  intros Hc. unfold JS.trimEnd. cbn [rev].
  rewrite trimStart_snoc by exact Hc.
  rewrite rev_app_distr. reflexivity.
Qed.

Lemma trimEnd_last s :
  JS.trimEnd s = [] \/ exists t c, JS.trimEnd s = t ++ [c] /\ JS.is_space c = false.
Proof.
  unfold JS.trimEnd. destruct (trimStart_head (rev s)) as [E | (c & t & E & Hc)].
  - left. rewrite E. reflexivity.
  - right. exists (rev t), c. rewrite E. split; [reflexivity | exact Hc].
Qed.

Lemma trimEnd_fixed t c : JS.is_space c = false -> JS.trimEnd (t ++ [c]) = t ++ [c].
Proof.
  intros Hc. unfold JS.trimEnd. rewrite rev_app_distr. cbn [rev app].
  rewrite trimStart_fixed by exact Hc.
  cbn [rev]. rewrite rev_involutive. reflexivity.
Qed.

(** What [trim] returns: the string without a run of white space at each
    end, which neither starts nor ends with white space and which [trim]
    leaves as it is. *)
Lemma trim_spec s :
  (exists pre post,
      s = pre ++ JS.trim s ++ post /\ all_space pre = true /\ all_space post = true)
  /\ (JS.trim s = []
      \/ (exists c t, JS.trim s = c :: t /\ JS.is_space c = false)
         /\ (exists t c, JS.trim s = t ++ [c] /\ JS.is_space c = false))
  /\ JS.trim (JS.trim s) = JS.trim s.
Proof.
  unfold JS.trim.
  destruct (trimStart_split s) as (pre & E1 & Hpre).
  destruct (trimEnd_split (JS.trimStart s)) as (post & E2 & Hpost).
  split; [|split].
  - exists pre, post. rewrite <- E2. auto.
  - destruct (trimStart_head s) as [E | (c & t & E & Hc)].
    + left. rewrite E. reflexivity.
    + right. rewrite E, trimEnd_cons by exact Hc. split.
      * exists c, (JS.trimEnd t). auto.
      * rewrite <- (trimEnd_cons c t Hc).
        destruct (trimEnd_last (c :: t)) as [E' | H]; [|exact H].
        rewrite trimEnd_cons in E' by exact Hc. discriminate.
  - destruct (trimStart_head s) as [E | (c & t & E & Hc)].
    + rewrite E. reflexivity.
    + rewrite E, trimEnd_cons by exact Hc.
      rewrite trimStart_fixed by exact Hc.
      rewrite <- (trimEnd_cons c t Hc).
      destruct (trimEnd_last (c :: t)) as [E' | (t' & c' & E' & Hc')].
      * rewrite E'. reflexivity.
      * rewrite E'. apply trimEnd_fixed, Hc'.
Qed.

Lemma trimStart_spaces pre s : all_space pre = true -> JS.trimStart (pre ++ s) = JS.trimStart s.
Proof.
  unfold all_space. induction pre as [|c pre IH]; [reflexivity|].
  cbn [forallb app JS.trimStart]. intros H. apply andb_prop in H. destruct H as [Hc Hp].
  rewrite Hc. exact (IH Hp).
Qed.

(** [trim] takes a frame of white space off a text whose ends are not
    white space, and gives that text. *)
Lemma trim_framed pre text post :
  all_space pre = true -> all_space post = true ->
  text = []
  \/ ((exists c t, text = c :: t /\ JS.is_space c = false)
      /\ (exists t c, text = t ++ [c] /\ JS.is_space c = false)) ->
  JS.trim (pre ++ text ++ post) = text.
Proof.
  intros Hpre Hpost Htext. unfold JS.trim. rewrite (trimStart_spaces pre _ Hpre).
  destruct Htext as [-> | [(c & t & E & Hc) (t' & d & E' & Hd)]].
  - cbn [app]. rewrite <- (app_nil_r post), (trimStart_spaces post [] Hpost).
    reflexivity.
  - rewrite E. cbn [app]. rewrite trimStart_fixed by exact Hc.
    change (c :: t ++ post) with ((c :: t) ++ post). rewrite <- E, E'.
    unfold JS.trimEnd. rewrite !rev_app_distr. cbn [rev app].
    rewrite trimStart_spaces by (rewrite all_space_rev; exact Hpost).
    rewrite trimStart_fixed by exact Hd.
    cbn [rev]. rewrite rev_involutive. reflexivity.
Qed.

(** ** The recognition and synthesis clients *)

Lemma eqb_eq a : forall b, JS.eqb a b = true <-> a = b.
Proof.
  unfold JS.eqb.
  induction a as [|x a IH]; intros [|y b]; cbn; split; intros H;
    try reflexivity; try discriminate.
  - apply andb_prop in H. destruct H as [H1 H2].
    apply Z.eqb_eq in H1. apply IH in H2. congruence.
  - injection H as -> ->. rewrite Z.eqb_refl. cbn. apply IH. reflexivity.
Qed.

Lemma truthy_false s : JS.truthy s = false <-> s = [].
Proof. destruct s; cbn; split; intros H; congruence. Qed.

Lemma extractText_run env d m p s :
  run env (GeminiService.extractText d m p) s
  = {| completion := Normal (recognized (settle env (generateContent_OCR d m p)));
       final := s;
       trace := EvRequest (generateContent_OCR d m p)
                  :: match settle env (generateContent_OCR d m p) with
                     | Fulfilled _ => []
                     | Rejected => [EvConsoleError]
                     end |}.
Proof.
  unfold GeminiService.extractText. run_simpl.
  destruct (settle env (generateContent_OCR d m p)) as [t|]; run_simpl.
  - unfold recognized.
    destruct (JS.eqb _ _ || negb _); reflexivity.
  - reflexivity.
Qed.

Lemma generateSpeech_run env t v s :
  run env (GeminiService.generateSpeech t v) s
  = {| completion := Normal (synthesized (settle env (generateContent_TTS t v)));
       final := s;
       trace := EvRequest (generateContent_TTS t v)
                  :: match settle env (generateContent_TTS t v) with
                     | Fulfilled _ => []
                     | Rejected => [EvConsoleError]
                     end |}.
Proof.
  unfold GeminiService.generateSpeech. run_simpl.
  destruct (settle env (generateContent_TTS t v)) as [d|]; run_simpl; reflexivity.
Qed.

Lemma or_else_trim t :
  GeminiService.or_else (option_map JS.trim t) []
  = match t with Some x => JS.trim x | None => [] end.
Proof.
  destruct t as [x|]; cbn; [|reflexivity].
  destruct (JS.trim x); reflexivity.
Qed.

Lemma recognized_fulfilled t :
  let trimmed := match t with Some x => JS.trim x | None => [] end in
  (trimmed = [] \/ trimmed = GeminiService.NO_TEXT_FOUND ->
   recognized (Fulfilled t)
   = {| GeminiService.text := [];
        GeminiService.error := Some GeminiService.NO_TEXT_FOUND |})
  /\ (trimmed <> [] -> trimmed <> GeminiService.NO_TEXT_FOUND ->
      recognized (Fulfilled t)
      = {| GeminiService.text := trimmed; GeminiService.error := None |}).
Proof.
  unfold recognized. rewrite or_else_trim. cbv zeta.
  assert (G : forall trimmed : jsstring,
    (trimmed = [] \/ trimmed = GeminiService.NO_TEXT_FOUND ->
     (if JS.eqb trimmed GeminiService.NO_TEXT_FOUND || negb (JS.truthy trimmed)
      then {| GeminiService.text := [];
              GeminiService.error := Some GeminiService.NO_TEXT_FOUND |}
      else {| GeminiService.text := trimmed; GeminiService.error := None |})
     = {| GeminiService.text := [];
          GeminiService.error := Some GeminiService.NO_TEXT_FOUND |})
    /\ (trimmed <> [] -> trimmed <> GeminiService.NO_TEXT_FOUND ->
        (if JS.eqb trimmed GeminiService.NO_TEXT_FOUND || negb (JS.truthy trimmed)
         then {| GeminiService.text := [];
                 GeminiService.error := Some GeminiService.NO_TEXT_FOUND |}
         else {| GeminiService.text := trimmed; GeminiService.error := None |})
        = {| GeminiService.text := trimmed; GeminiService.error := None |}));
    [|apply G].
  intros trimmed.
  destruct (JS.eqb trimmed GeminiService.NO_TEXT_FOUND) eqn:E1; cbn [orb].
  - apply eqb_eq in E1. split; [reflexivity | intros; contradiction].
  - assert (Hnn : trimmed <> GeminiService.NO_TEXT_FOUND).
    { intros E. apply eqb_eq in E. congruence. }
    destruct (JS.truthy trimmed) eqn:E2; cbn [negb].
    + assert (Hne : trimmed <> []).
      { intros E. apply truthy_false in E. congruence. }
      split; [intros [H | H]; contradiction | reflexivity].
    + apply truthy_false in E2. split; [reflexivity | intros; contradiction].
Qed.

Lemma recognized_shape o :
  (GeminiService.error (recognized o) <> None -> GeminiService.text (recognized o) = [])
  /\ (GeminiService.error (recognized o) = None
      <-> GeminiService.text (recognized o) <> []).
Proof.
  destruct o as [t|]; [|cbn; repeat split; congruence].
  unfold recognized.
  destruct (JS.eqb _ _) eqn:E1; cbn [orb]; [cbn; repeat split; congruence|].
  destruct (JS.truthy _) eqn:E2; cbn [negb]; [|cbn; repeat split; congruence].
  cbn [GeminiService.text GeminiService.error].
  assert (GeminiService.or_else (option_map JS.trim t) [] <> []).
  { intros E. apply truthy_false in E. congruence. }
  repeat split; congruence.
Qed.

(** C10.  [extractText] is total: whatever the model call does, it returns
    an [OCRResult] and changes no state.  The result carries the error
    NO_TEXT_FOUND whenever the response text, trimmed, is empty or is the
    string NO_TEXT_FOUND (a missing text counts as empty); it carries
    API_ERROR when the call throws; an error always comes with the empty
    text, and a result without an error always has a non-empty text.
    Trimming is what it has to be: a response of white space only gives
    NO_TEXT_FOUND, so does the marker with white space around it, and a
    text whose ends are not white space comes back without the white
    space around it and otherwise unchanged. *)
Theorem extractText_total env base64Data mimeType langPrompt s :
  exists res,
    completion (run env (GeminiService.extractText base64Data mimeType langPrompt) s)
      = Normal res
    /\ final (run env (GeminiService.extractText base64Data mimeType langPrompt) s) = s
    /\ (forall result_text,
          settle env (generateContent_OCR base64Data mimeType langPrompt)
            = Fulfilled result_text ->
          let trimmed := match result_text with Some x => JS.trim x | None => [] end in
          (trimmed = [] \/ trimmed = JS.lit "NO_TEXT_FOUND" ->
           res = {| GeminiService.text := [];
                    GeminiService.error := Some (JS.lit "NO_TEXT_FOUND") |})
          /\ (trimmed <> [] -> trimmed <> JS.lit "NO_TEXT_FOUND" ->
              res = {| GeminiService.text := trimmed; GeminiService.error := None |}))
    /\ (settle env (generateContent_OCR base64Data mimeType langPrompt) = Rejected ->
        res = {| GeminiService.text := [];
                 GeminiService.error := Some (JS.lit "API_ERROR") |})
    /\ (GeminiService.error res <> None -> GeminiService.text res = [])
    /\ (GeminiService.error res = None <-> GeminiService.text res <> [])
    /\ (forall response,
          settle env (generateContent_OCR base64Data mimeType langPrompt)
            = Fulfilled (Some response) ->
          all_space response = true ->
          res = {| GeminiService.text := [];
                   GeminiService.error := Some (JS.lit "NO_TEXT_FOUND") |})
    /\ (forall pre post,
          settle env (generateContent_OCR base64Data mimeType langPrompt)
            = Fulfilled (Some (pre ++ JS.lit "NO_TEXT_FOUND" ++ post)) ->
          all_space pre = true -> all_space post = true ->
          res = {| GeminiService.text := [];
                   GeminiService.error := Some (JS.lit "NO_TEXT_FOUND") |})
    /\ (forall pre text post,
          settle env (generateContent_OCR base64Data mimeType langPrompt)
            = Fulfilled (Some (pre ++ text ++ post)) ->
          all_space pre = true -> all_space post = true ->
          (exists c t, text = c :: t /\ JS.is_space c = false) ->
          (exists t c, text = t ++ [c] /\ JS.is_space c = false) ->
          text <> JS.lit "NO_TEXT_FOUND" ->
          res = {| GeminiService.text := text; GeminiService.error := None |}).
Proof.
  rewrite extractText_run. cbn [completion final].
  exists (recognized (settle env (generateContent_OCR base64Data mimeType langPrompt))).
  split; [reflexivity|]. split; [reflexivity|].
  split; [|split; [|split; [|split; [|split; [|split]]]]].
  - intros rt ->. apply recognized_fulfilled.
  - intros ->. reflexivity.
  - apply recognized_shape.
  - apply recognized_shape.
  - intros response -> Hsp.
    apply (proj1 (recognized_fulfilled (Some response))). left.
    rewrite <- (app_nil_r response). apply (trim_framed response [] []); auto.
  - intros pre post -> Hpre Hpost.
    apply (proj1 (recognized_fulfilled (Some (pre ++ JS.lit "NO_TEXT_FOUND" ++ post)))).
    right. apply trim_framed; auto. right. split.
    + exists 78, (JS.lit "O_TEXT_FOUND"). split; reflexivity.
    + exists (JS.lit "NO_TEXT_FOUN"), 68. split; reflexivity.
  - intros pre text post -> Hpre Hpost Hhd Hlast Hnm.
    pose proof (trim_framed pre text post Hpre Hpost (or_intror (conj Hhd Hlast))) as Et.
    destruct (recognized_fulfilled (Some (pre ++ text ++ post))) as [_ H].
    cbv zeta in H. rewrite Et in H. apply H; [|exact Hnm].
    destruct Hhd as (c & t & -> & _). discriminate.
Qed.

Lemma extractText_total_witness :
  let answers response :=
    responses (Fulfilled None) (Fulfilled (Some response)) Rejected true in
  let result response :=
    completion (run (answers response)
                  (GeminiService.extractText None (JS.lit "image/jpeg") (JS.lit "english"))
                  boot) in
  result (JS.lit "  ") = Normal {| GeminiService.text := [];
                                   GeminiService.error := Some (JS.lit "NO_TEXT_FOUND") |}
  /\ result (JS.lit " NO_TEXT_FOUND ")
     = Normal {| GeminiService.text := [];
                 GeminiService.error := Some (JS.lit "NO_TEXT_FOUND") |}
  /\ result (JS.lit " Hola  ")
     = Normal {| GeminiService.text := JS.lit "Hola"; GeminiService.error := None |}.
Proof.
  intros answers result. unfold result. split; [|split].
  - destruct (extractText_total (answers (JS.lit "  ")) None (JS.lit "image/jpeg")
                (JS.lit "english") boot)
      as (res & -> & _ & _ & _ & _ & _ & Hspace & _).
    rewrite (Hspace (JS.lit "  ") eq_refl eq_refl). reflexivity.
  - destruct (extractText_total (answers (JS.lit " NO_TEXT_FOUND ")) None
                (JS.lit "image/jpeg") (JS.lit "english") boot)
      as (res & -> & _ & _ & _ & _ & _ & _ & Hmarker & _).
    rewrite (Hmarker (JS.lit " ") (JS.lit " ") eq_refl eq_refl eq_refl). reflexivity.
  - destruct (extractText_total (answers (JS.lit " Hola  ")) None
                (JS.lit "image/jpeg") (JS.lit "english") boot)
      as (res & -> & _ & _ & _ & _ & _ & _ & _ & Htext).
    rewrite (Htext (JS.lit " ") (JS.lit "Hola") (JS.lit "  ") eq_refl eq_refl eq_refl).
    + reflexivity.
    + exists 72, (JS.lit "ola"). split; reflexivity.
    + exists (JS.lit "Hol"), 97. split; reflexivity.
    + discriminate.
Defined.

(** [generateSpeech] is total as well: it returns the inline data of the
    response when there is some, and null when the call throws or the
    response carries no data or an empty one; it changes no state. *)
Theorem generateSpeech_total env text voiceName s :
  exists payload,
    completion (run env (GeminiService.generateSpeech text voiceName) s) = Normal payload
    /\ final (run env (GeminiService.generateSpeech text voiceName) s) = s
    /\ (settle env (generateContent_TTS text voiceName) = Rejected -> payload = None)
    /\ (forall data,
          settle env (generateContent_TTS text voiceName) = Fulfilled data ->
          payload = match data with
                    | Some (c :: d) => Some (c :: d)
                    | _ => None
                    end)
    /\ payload <> Some [].
Proof.
  rewrite generateSpeech_run. cbn [completion final].
  exists (synthesized (settle env (generateContent_TTS text voiceName))).
  split; [reflexivity|]. split; [reflexivity|].
  destruct (settle env (generateContent_TTS text voiceName)) as [[[|c d]|]|];
    cbn; repeat split; try congruence; intros data [= <-]; reflexivity.
Qed.


(** ** What a trace shows *)

Lemma spoken_app a b : spoken (a ++ b) = spoken a ++ spoken b.
Proof. apply flat_map_app. Qed.
Lemma synthesis_requests_app a b :
  synthesis_requests (a ++ b) = synthesis_requests a ++ synthesis_requests b.
Proof. apply flat_map_app. Qed.
Lemma host_calls_app a b : host_calls (a ++ b) = host_calls a ++ host_calls b.
Proof. apply flat_map_app. Qed.
Lemma played_app a b : played (a ++ b) = played a ++ played b.
Proof. apply flat_map_app. Qed.

(** ** The capture pipeline *)

Lemma playPCMAudio_run env r base64Data s :
  let out := run env (App.playPCMAudio r base64Data) s in
  completion out = Normal tt
  /\ hooks (final out) = hooks s
  /\ audioContextRef (final out) = context_ready env s
  /\ trace out
     = context_events env s
         ++ (if context_ready env s then decode_and_start env r base64Data
             else EvConsoleError :: fallback_events r).
Proof.
  unfold App.playPCMAudio, context_events, context_ready, decode_and_start,
    fallback_events, App.play, App.speakStatus.
  cbv zeta. run_simpl.
  destruct (audioContextRef s) eqn:Hctx; cbn [negb orb]; run_simpl.
  - destruct (PCM.decode base64Data) as [e|[|x xs]]; run_simpl.
    + destruct (lastText r) as [t|]; [destruct (JS.truthy t)|]; run_simpl; auto.
    + destruct (lastText r) as [t|]; [destruct (JS.truthy t)|]; run_simpl; auto.
    + destruct (host env (start_buffer 1 (x :: xs) 24000)); run_simpl; auto.
      destruct (lastText r) as [t|]; [destruct (JS.truthy t)|]; run_simpl; auto.
  - destruct (host env (new_AudioContext 24000)); run_simpl.
    + destruct (PCM.decode base64Data) as [e|[|x xs]]; run_simpl.
      * destruct (lastText r) as [t|]; [destruct (JS.truthy t)|]; run_simpl; auto.
      * destruct (lastText r) as [t|]; [destruct (JS.truthy t)|]; run_simpl; auto.
      * destruct (host env (start_buffer 1 (x :: xs) 24000)); run_simpl; auto.
        destruct (lastText r) as [t|]; [destruct (JS.truthy t)|]; run_simpl; auto.
    + destruct (lastText r) as [t|]; [destruct (JS.truthy t)|]; run_simpl; auto.
Qed.

Lemma synthesized_truthy o payload : synthesized o = Some payload -> payload <> [].
Proof.
  destruct o as [[d|]|]; cbn; try discriminate.
  destruct d; cbn; [discriminate|]. intros [= <-]. discriminate.
Qed.

Lemma processImage_read_rejected env r file s :
  settle env (readAsDataURL file) = Rejected ->
  run env (App.processImage r file) s
  = {| completion := Normal tt;
       final := update (setIsProcessing false)
                  (update (setError (Some (App.generic_error r))) (reset s));
       trace := EvRequest (readAsDataURL file) :: EvConsoleError
                  :: speak_events r (App.generic_error r) |}.
Proof.
  intros Hread. unfold App.processImage, App.speakStatus. run_simpl.
  rewrite Hread. run_simpl. reflexivity.
Qed.

Lemma processImage_no_text env r file s base64Data :
  settle env (readAsDataURL file) = Fulfilled base64Data ->
  no_text (recognized (settle env (ocr_request r file base64Data))) = true ->
  run env (App.processImage r file) s
  = {| completion := Normal tt;
       final := update (setIsProcessing false)
                  (update (setIsProcessing false)
                     (update (setError (Some (errorMsg (App.langConfig r)))) (reset s)));
       trace := EvRequest (readAsDataURL file)
                  :: settle_log env (ocr_request r file base64Data)
                  ++ speak_events r (errorMsg (App.langConfig r)) |}.
Proof.
  unfold no_text, ocr_request. intros Hread Hcond.
  unfold App.processImage, App.speakStatus. run_simpl.
  rewrite Hread. run_simpl. rewrite extractText_run. run_simpl.
  rewrite Hcond. run_simpl.
  rewrite app_nil_r. reflexivity.
Qed.

Lemma processImage_no_payload env r file s base64Data :
  settle env (readAsDataURL file) = Fulfilled base64Data ->
  let ocrResult := recognized (settle env (ocr_request r file base64Data)) in
  no_text ocrResult = false ->
  synthesized (settle env (tts_request r (GeminiService.text ocrResult))) = None ->
  run env (App.processImage r file) s
  = {| completion := Normal tt;
       final := update (setIsProcessing false)
                  (update (setLastText (Some (GeminiService.text ocrResult)))
                     (reset s));
       trace := EvRequest (readAsDataURL file)
                  :: settle_log env (ocr_request r file base64Data)
                  ++ settle_log env (tts_request r (GeminiService.text ocrResult))
                  ++ speak_events r (GeminiService.text ocrResult) |}.
Proof.
  intros Hread ocrResult Hcond Htts.
  unfold no_text, ocr_request, tts_request in *.
  unfold App.processImage, App.speakStatus. run_simpl.
  rewrite Hread. run_simpl. rewrite extractText_run. run_simpl.
  fold ocrResult. rewrite Hcond. run_simpl.
  rewrite generateSpeech_run. run_simpl. rewrite Htts. run_simpl.
  rewrite app_nil_r. reflexivity.
Qed.

Lemma processImage_payload env r file s base64Data :
  settle env (readAsDataURL file) = Fulfilled base64Data ->
  let ocrResult := recognized (settle env (ocr_request r file base64Data)) in
  no_text ocrResult = false ->
  forall payload,
  synthesized (settle env (tts_request r (GeminiService.text ocrResult))) = Some payload ->
  let playing :=
    run env (App.playPCMAudio r payload)
      (update (setAudioData (Some payload))
         (update (setLastText (Some (GeminiService.text ocrResult))) (reset s))) in
  run env (App.processImage r file) s
  = {| completion := Normal tt;
       final := update (setIsProcessing false) (final playing);
       trace := EvRequest (readAsDataURL file)
                  :: settle_log env (ocr_request r file base64Data)
                  ++ settle_log env (tts_request r (GeminiService.text ocrResult))
                  ++ trace playing |}.
Proof.
  intros Hread ocrResult Hcond payload Htts playing.
  unfold no_text, ocr_request, tts_request in *.
  pose proof (synthesized_truthy _ _ Htts) as Hne.
  destruct payload as [|c b]; [contradiction|].
  destruct (playPCMAudio_run env r (c :: b)
              (update (setAudioData (Some (c :: b)))
                 (update (setLastText (Some (GeminiService.text ocrResult)))
                    (reset s)))) as (Hc & _).
  fold playing in Hc.
  unfold App.processImage. run_simpl.
  rewrite Hread. run_simpl. rewrite extractText_run. run_simpl.
  fold ocrResult. rewrite Hcond. run_simpl.
  rewrite generateSpeech_run. run_simpl. rewrite Htts. run_simpl.
  fold (reset s). fold playing. rewrite Hc. run_simpl.
  rewrite app_nil_r. reflexivity.
Qed.

Lemma recognition_result env base64Data mimeType langPrompt s ocrResult :
  completion (run env (GeminiService.extractText base64Data mimeType langPrompt) s)
    = Normal ocrResult ->
  ocrResult = recognized (settle env (generateContent_OCR base64Data mimeType langPrompt)).
Proof. rewrite extractText_run. cbn. congruence. Qed.

Lemma synthesis_result env text voiceName s payload :
  completion (run env (GeminiService.generateSpeech text voiceName) s) = Normal payload ->
  payload = synthesized (settle env (generateContent_TTS text voiceName)).
Proof. rewrite generateSpeech_run. cbn. congruence. Qed.

Lemma settle_log_quiet env q :
  spoken (settle_log env q) = [] /\ host_calls (settle_log env q) = []
  /\ played (settle_log env q) = [].
Proof. unfold settle_log. destruct q, (settle env _); repeat split. Qed.

Lemma settle_log_ocr env d m p :
  synthesis_requests (settle_log env (generateContent_OCR d m p)) = [].
Proof. unfold settle_log. destruct (settle env _); reflexivity. Qed.

Lemma recognized_text_guard o :
  GeminiService.text (recognized o) <> [] ->
  JS.truthy_opt (GeminiService.error (recognized o))
  || negb (JS.truthy (GeminiService.text (recognized o))) = false.
Proof.
  intros Hne. destruct (recognized_shape o) as [_ Hiff].
  apply Hiff in Hne. rewrite Hne. cbn.
  destruct (GeminiService.text (recognized o)) eqn:E; [|reflexivity].
  apply Hiff in Hne. contradiction.
Qed.

(** C4.  When recognition reports NO_TEXT_FOUND (or an empty text), the
    capture sends nothing to the speech model: it sets the error to the
    no-text message of the selected language, speaks that message, and
    stops there, with no playback and the processing flag cleared. *)
Theorem no_text_never_synthesizes env r file s base64Data ocrResult :
  settle env (readAsDataURL file) = Fulfilled base64Data ->
  completion (run env (GeminiService.extractText base64Data (type file)
                         (prompt (App.langConfig r))) s) = Normal ocrResult ->
  GeminiService.error ocrResult = Some (JS.lit "NO_TEXT_FOUND")
  \/ GeminiService.text ocrResult = [] ->
  let out := run env (App.processImage r file) s in
  let message := errorMsg (App.SUPPORTED_LANGUAGES (selectedLang r)) in
  synthesis_requests (trace out) = []
  /\ error (hooks (final out)) = Some message
  /\ spoken (trace out) = [message]
  /\ (exists before, trace out = before ++ speak_events r message)
  /\ host_calls (trace out) = []
  /\ completion out = Normal tt
  /\ isProcessing (hooks (final out)) = false
  /\ lastText (hooks (final out)) = None
  /\ audioData (hooks (final out)) = None.
Proof.
  intros Hread Hocr Hres out message.
  apply recognition_result in Hocr.
  assert (Hcond : JS.truthy_opt (GeminiService.error ocrResult)
                  || negb (JS.truthy (GeminiService.text ocrResult)) = true).
  { destruct Hres as [-> | ->]; [reflexivity | apply orb_true_r]. }
  subst ocrResult. unfold out.
  rewrite (processImage_no_text env r file s base64Data Hread Hcond).
  unfold ocr_request. cbn [trace final completion].
  repeat split.
  - cbn [synthesis_requests flat_map]. rewrite synthesis_requests_app.
    rewrite settle_log_ocr. reflexivity.
  - cbn [spoken flat_map]. rewrite spoken_app.
    destruct (settle_log_quiet env
      (generateContent_OCR base64Data (type file) (prompt (App.langConfig r))))
      as (-> & _). reflexivity.
  - eexists (_ :: _). cbn [app]. reflexivity.
  - cbn [host_calls flat_map]. rewrite host_calls_app.
    destruct (settle_log_quiet env
      (generateContent_OCR base64Data (type file) (prompt (App.langConfig r))))
      as (_ & -> & _). reflexivity.
Qed.

(** C5.  When recognition returns a non-empty text and the speech model
    returns no payload, the capture speaks exactly that text and makes no
    Web Audio call. *)
Theorem no_payload_speaks_text env r file s base64Data ocrResult :
  settle env (readAsDataURL file) = Fulfilled base64Data ->
  completion (run env (GeminiService.extractText base64Data (type file)
                         (prompt (App.langConfig r))) s) = Normal ocrResult ->
  GeminiService.text ocrResult <> [] ->
  completion (run env (GeminiService.generateSpeech (GeminiService.text ocrResult)
                         (voice (App.langConfig r))) s) = Normal None ->
  let out := run env (App.processImage r file) s in
  spoken (trace out) = [GeminiService.text ocrResult]
  /\ host_calls (trace out) = []
  /\ played (trace out) = []
  /\ completion out = Normal tt
  /\ lastText (hooks (final out)) = Some (GeminiService.text ocrResult)
  /\ audioData (hooks (final out)) = None
  /\ isProcessing (hooks (final out)) = false.
Proof.
  intros Hread Hocr Htext Htts out.
  apply recognition_result in Hocr. apply synthesis_result in Htts.
  subst ocrResult. unfold out.
  rewrite (processImage_no_payload env r file s base64Data Hread
             (recognized_text_guard _ Htext) (eq_sym Htts)).
  cbn [trace final completion].
  match goal with
  | |- context [settle_log env ?a ++ settle_log env ?b ++ _] =>
      destruct (settle_log_quiet env a) as (Sa & Ha & Pa);
      destruct (settle_log_quiet env b) as (Sb & Hb & Pb)
  end.
  repeat split.
  - cbn [spoken flat_map]. rewrite !spoken_app, Sa, Sb. reflexivity.
  - cbn [host_calls flat_map]. rewrite !host_calls_app, Ha, Hb. reflexivity.
  - cbn [played flat_map]. rewrite !played_app, Pa, Pb. reflexivity.
Qed.

(** C6.  When recognition returns a non-empty text and the speech model
    returns a payload that decodes to samples and the Web Audio calls
    return, the capture starts the playback of exactly the decoded samples
    (after creating the audio context if there was none) and speaks
    nothing. *)
Theorem valid_payload_is_played env r file s base64Data ocrResult payload samples :
  settle env (readAsDataURL file) = Fulfilled base64Data ->
  completion (run env (GeminiService.extractText base64Data (type file)
                         (prompt (App.langConfig r))) s) = Normal ocrResult ->
  GeminiService.text ocrResult <> [] ->
  completion (run env (GeminiService.generateSpeech (GeminiService.text ocrResult)
                         (voice (App.langConfig r))) s) = Normal (Some payload) ->
  PCM.decode payload = inr samples ->
  samples <> [] ->
  (audioContextRef s = false -> host env (new_AudioContext 24000) = true) ->
  host env (start_buffer 1 samples 24000) = true ->
  let out := run env (App.processImage r file) s in
  host_calls (trace out)
  = (if audioContextRef s then [] else [new_AudioContext 24000])
      ++ [start_buffer 1 samples 24000]
  /\ played (trace out) = [samples]
  /\ spoken (trace out) = []
  /\ completion out = Normal tt
  /\ lastText (hooks (final out)) = Some (GeminiService.text ocrResult)
  /\ audioData (hooks (final out)) = Some payload
  /\ isProcessing (hooks (final out)) = false.
Proof.
  intros Hread Hocr Htext Htts Hdec Hne Hctx Hstart out.
  apply recognition_result in Hocr. apply synthesis_result in Htts.
  subst ocrResult. unfold out.
  rewrite (processImage_payload env r file s base64Data Hread
             (recognized_text_guard _ Htext) payload (eq_sym Htts)).
  cbn [trace final completion].
  match goal with
  | |- context [run env (App.playPCMAudio r payload) ?st] =>
      destruct (playPCMAudio_run env r payload st) as (_ & Hh & _ & Ht);
      set (playing := run env (App.playPCMAudio r payload) st) in *
  end.
  rewrite Ht. cbn [update hooks update_hooks isProcessing lastText audioData].
  rewrite Hh. cbn [reset update hooks update_hooks isProcessing lastText audioData].
  unfold context_events, context_ready, decode_and_start.
  cbn [reset update audioContextRef]. rewrite Hdec.
  destruct samples as [|x xs]; [contradiction|]. rewrite Hstart.
  match goal with
  | |- context [settle_log env ?a ++ settle_log env ?b ++ _] =>
      destruct (settle_log_quiet env a) as (Sa & Ha & Pa);
      destruct (settle_log_quiet env b) as (Sb & Hb & Pb)
  end.
  destruct (audioContextRef s) eqn:E; cbn [orb].
  - repeat split.
    + cbn [host_calls flat_map]. rewrite !host_calls_app, Ha, Hb. reflexivity.
    + cbn [played flat_map]. rewrite !played_app, Pa, Pb. reflexivity.
    + cbn [spoken flat_map]. rewrite !spoken_app, Sa, Sb. reflexivity.
  - rewrite (Hctx eq_refl). repeat split.
    + cbn [host_calls flat_map]. rewrite !host_calls_app, Ha, Hb. reflexivity.
    + cbn [played flat_map]. rewrite !played_app, Pa, Pb. reflexivity.
    + cbn [spoken flat_map]. rewrite !spoken_app, Sa, Sb. reflexivity.
Qed.

Lemma no_text_never_synthesizes_witness :
  let env := responses (Fulfilled (Some (JS.lit "aGk=")))
                       (Fulfilled (Some (JS.lit " NO_TEXT_FOUND ")))
                       (Fulfilled (Some (JS.lit "AAAAgA=="))) true in
  let out := run env (App.processImage (with_lang en fresh) photo) boot in
  synthesis_requests (trace out) = []
  /\ spoken (trace out) = [JS.lit "No text detected in the image. Please try again."].
Proof.
  intros env out.
  destruct (no_text_never_synthesizes env (with_lang en fresh) photo boot
              (Some (JS.lit "aGk="))
              {| GeminiService.text := [];
                 GeminiService.error := Some (JS.lit "NO_TEXT_FOUND") |}
              eq_refl eq_refl (or_introl eq_refl))
    as (H1 & _ & H3 & _).
  split; [exact H1 | exact H3].
Defined.

Lemma no_payload_speaks_text_witness :
  let env := responses (Fulfilled (Some (JS.lit "aGk=")))
                       (Fulfilled (Some (JS.lit "Hello")))
                       (Fulfilled None) true in
  let out := run env (App.processImage (with_lang en fresh) photo) boot in
  spoken (trace out) = [JS.lit "Hello"] /\ host_calls (trace out) = [].
Proof.
  intros env out.
  destruct (no_payload_speaks_text env (with_lang en fresh) photo boot
              (Some (JS.lit "aGk="))
              {| GeminiService.text := JS.lit "Hello"; GeminiService.error := None |}
              eq_refl eq_refl ltac:(discriminate) eq_refl)
    as (H1 & H2 & _).
  split; [exact H1 | exact H2].
Defined.

Lemma valid_payload_is_played_witness :
  let env := responses (Fulfilled (Some (JS.lit "aGk=")))
                       (Fulfilled (Some (JS.lit "Bonjour")))
                       (Fulfilled (Some (JS.lit "AAAAgA=="))) true in
  let out := run env (App.processImage (with_lang fr fresh) photo) boot in
  played (trace out) = [[S754_zero false; S754_finite true 8388608 (-23)]]
  /\ spoken (trace out) = [].
Proof.
  intros env out.
  destruct (valid_payload_is_played env (with_lang fr fresh) photo boot
              (Some (JS.lit "aGk="))
              {| GeminiService.text := JS.lit "Bonjour"; GeminiService.error := None |}
              (JS.lit "AAAAgA==")
              [S754_zero false; S754_finite true 8388608 (-23)]
              eq_refl eq_refl ltac:(discriminate) eq_refl eq_refl
              ltac:(discriminate) (fun _ => eq_refl) eq_refl)
    as (_ & H2 & H3 & _).
  split; [exact H2 | exact H3].
Defined.

(** A failure of the recognition call ends a capture like a missing text:
    the no-text message of the selected language is set and spoken, and
    nothing is sent to the speech model. *)
Theorem api_error_announces_no_text env r file s base64Data :
  settle env (readAsDataURL file) = Fulfilled base64Data ->
  settle env (generateContent_OCR base64Data (type file) (prompt (App.langConfig r)))
    = Rejected ->
  let out := run env (App.processImage r file) s in
  let message := errorMsg (App.SUPPORTED_LANGUAGES (selectedLang r)) in
  error (hooks (final out)) = Some message
  /\ spoken (trace out) = [message]
  /\ synthesis_requests (trace out) = []
  /\ completion out = Normal tt
  /\ isProcessing (hooks (final out)) = false.
Proof.
  intros Hread Hocr out message.
  assert (Hcond : no_text (recognized (settle env (ocr_request r file base64Data))) = true).
  { unfold ocr_request. rewrite Hocr. reflexivity. }
  unfold out. rewrite (processImage_no_text env r file s base64Data Hread Hcond).
  unfold ocr_request, settle_log. rewrite Hocr. repeat split.
Qed.

Lemma api_error_announces_no_text_witness :
  let env := responses (Fulfilled (Some (JS.lit "aGk="))) Rejected Rejected true in
  spoken (trace (run env (App.processImage fresh photo) boot))
  = [JS.lit "No s'ha detectat cap text a la imatge. Torna-ho a provar."].
Proof.
  intros env.
  apply (proj1 (proj2 (api_error_announces_no_text env fresh photo boot
                         (Some (JS.lit "aGk=")) eq_refl eq_refl))).
Defined.

Lemma spoken_fallback r :
  spoken (EvConsoleError :: fallback_events r)
  = match lastText r with
    | Some (c :: t) => [c :: t]
    | _ => []
    end.
Proof.
  unfold fallback_events. destruct (lastText r) as [[|c t]|]; reflexivity.
Qed.

(** What is spoken when the payload of a capture does not decode: the
    text held by the render that started the capture, if it holds one. *)
Theorem failed_decode_speaks_render_text env r file s base64Data ocrResult payload e :
  settle env (readAsDataURL file) = Fulfilled base64Data ->
  completion (run env (GeminiService.extractText base64Data (type file)
                         (prompt (App.langConfig r))) s) = Normal ocrResult ->
  GeminiService.text ocrResult <> [] ->
  completion (run env (GeminiService.generateSpeech (GeminiService.text ocrResult)
                         (voice (App.langConfig r))) s) = Normal (Some payload) ->
  PCM.decode payload = inl e ->
  let out := run env (App.processImage r file) s in
  spoken (trace out) = match lastText r with
                       | Some (c :: t) => [c :: t]
                       | _ => []
                       end
  /\ played (trace out) = []
  /\ lastText (hooks (final out)) = Some (GeminiService.text ocrResult).
Proof.
  intros Hread Hocr Htext Htts Hdec out.
  apply recognition_result in Hocr. apply synthesis_result in Htts.
  subst ocrResult. unfold out.
  rewrite (processImage_payload env r file s base64Data Hread
             (recognized_text_guard _ Htext) payload (eq_sym Htts)).
  cbn [trace final completion].
  match goal with
  | |- context [run env (App.playPCMAudio r payload) ?st] =>
      destruct (playPCMAudio_run env r payload st) as (_ & Hh & _ & Ht);
      set (playing := run env (App.playPCMAudio r payload) st) in *
  end.
  rewrite Ht. cbn [update hooks update_hooks isProcessing lastText audioData].
  rewrite Hh. cbn [reset update hooks update_hooks isProcessing lastText audioData].
  unfold decode_and_start. rewrite Hdec.
  assert (Hctx : forall st, spoken (context_events env st) = []
                            /\ played (context_events env st) = []).
  { intros st. unfold context_events. destruct (audioContextRef st); split; reflexivity. }
  match goal with
  | |- context [settle_log env ?a ++ settle_log env ?b ++ _] =>
      destruct (settle_log_quiet env a) as (Sa & Ha & Pa);
      destruct (settle_log_quiet env b) as (Sb & Hb & Pb)
  end.
  match goal with
  | |- context [if context_ready env ?st then _ else _] =>
      destruct (context_ready env st)
  end.
  - repeat split.
    + cbn [spoken flat_map]. rewrite !spoken_app, Sa, Sb, (proj1 (Hctx _)).
      cbn [app]. apply spoken_fallback.
    + cbn [played flat_map]. rewrite !played_app, Pa, Pb, (proj2 (Hctx _)).
      unfold fallback_events. destruct (lastText r) as [t|]; [destruct (JS.truthy t)|];
        reflexivity.
  - repeat split.
    + cbn [spoken flat_map]. rewrite !spoken_app, Sa, Sb, (proj1 (Hctx _)).
      cbn [app]. apply spoken_fallback.
    + cbn [played flat_map]. rewrite !played_app, Pa, Pb, (proj2 (Hctx _)).
      unfold fallback_events. destruct (lastText r) as [t|]; [destruct (JS.truthy t)|];
        reflexivity.
Qed.

Lemma failed_decode_speaks_render_text_witness :
  let env := responses (Fulfilled (Some (JS.lit "aGk=")))
                       (Fulfilled (Some (JS.lit "Hello")))
                       (Fulfilled (Some (JS.lit "AAAA"))) true in
  spoken (trace (run env (App.processImage fresh photo) boot)) = [].
Proof.
  intros env.
  apply (proj1 (failed_decode_speaks_render_text env fresh photo boot
                  (Some (JS.lit "aGk="))
                  {| GeminiService.text := JS.lit "Hello"; GeminiService.error := None |}
                  (JS.lit "AAAA") PCM.RangeError
                  eq_refl eq_refl ltac:(discriminate) eq_refl eq_refl)).
Defined.


(** C3.  The fallback after a failed decode speaks the text of the render
    that started the capture, not the text just recognized.  In a fresh
    session, with the text Hello recognized and a three-byte payload, the
    capture stores Hello and speaks nothing; when the previous capture had
    left the text Adeu, it speaks Adeu. *)
Theorem fallback_speaks_text_of_old_render :
  let env := responses (Fulfilled (Some (JS.lit "aGk=")))
                       (Fulfilled (Some (JS.lit "Hello")))
                       (Fulfilled (Some (JS.lit "AAAA"))) true in
  PCM.decode (JS.lit "AAAA") = inl PCM.RangeError
  /\ (let out := run env (App.processImage fresh photo) boot in
      lastText (hooks (final out)) = Some (JS.lit "Hello")
      /\ spoken (trace out) = []
      /\ played (trace out) = [])
  /\ (let out := run env (App.processImage (with_text (JS.lit "Adeu") fresh) photo)
                   {| hooks := with_text (JS.lit "Adeu") fresh;
                      audioContextRef := false |} in
      lastText (hooks (final out)) = Some (JS.lit "Hello")
      /\ spoken (trace out) = [JS.lit "Adeu"]
      /\ played (trace out) = []).
Proof. vm_compute. repeat split. Qed.

(** ** The decoder *)

Lemma decode_odd X bytes :
  Base64.atob X = Some bytes -> Nat.odd (length bytes) = true ->
  PCM.decode X = inl PCM.RangeError.
Proof.
  intros Ha Hodd. unfold PCM.decode, PCM.Int16Array_of_buffer, PCM.Uint8Array_from.
  rewrite Ha, length_map.
  rewrite <- Nat.negb_odd, Hodd. reflexivity.
Qed.

(** C2.  An input whose decoded byte length is odd makes the decoder fail
    with the RangeError of the [Int16Array] construction: no samples are
    produced from a truncated buffer.  In [playPCMAudio] the failure ends
    in the handler, which logs it, and no playback is started, whatever the
    host does. *)
Theorem odd_length_is_decode_error X bytes :
  Base64.atob X = Some bytes -> Nat.odd (length bytes) = true ->
  PCM.decode X = inl PCM.RangeError
  /\ forall env r s,
      let out := run env (App.playPCMAudio r X) s in
      played (trace out) = []
      /\ (forall ch samples rate, ~ In (start_buffer ch samples rate) (host_calls (trace out)))
      /\ In EvConsoleError (trace out).
Proof.
  intros Ha Hodd. pose proof (decode_odd X bytes Ha Hodd) as Hdec.
  split; [exact Hdec|]. intros env r s out.
  destruct (playPCMAudio_run env r X s) as (_ & _ & _ & Ht).
  unfold out. rewrite Ht.
  unfold context_events, context_ready, decode_and_start, fallback_events.
  rewrite Hdec.
  destruct (audioContextRef s); cbn [orb app];
    destruct (host env (new_AudioContext 24000)); cbn [app];
    destruct (lastText r) as [t|]; try destruct (JS.truthy t);
    (split; [reflexivity|]; split; [|cbn; tauto]);
    intros ch samples rate; cbn; intros H;
    repeat (destruct H as [H|H]; [discriminate H|]); exact H.
Qed.

Lemma odd_length_is_decode_error_witness :
  PCM.decode (JS.lit "AAAA") = inl PCM.RangeError.
Proof.
  apply (proj1 (odd_length_is_decode_error (JS.lit "AAAA") [0; 0; 0] eq_refl eq_refl)).
Defined.

Lemma decode_encode bs :
  Forall is_byte bs -> Nat.even (length bs) = true ->
  PCM.decode (Base64.encode bs) = inr (List.map PCM.sample_of_int16 (PCM.int16_elements bs)).
Proof.
  intros Hb He. unfold PCM.decode.
  rewrite (atob_encode_bytes bs Hb), (Uint8Array_from_bytes bs Hb).
  unfold PCM.Int16Array_of_buffer. rewrite He. reflexivity.
Qed.

Lemma nth_is_byte bs i : Forall is_byte bs -> is_byte (nth i bs 0).
Proof.
  intros H. revert i. induction H as [|b l Hb _ IH]; intros [|i]; cbn; auto;
    unfold is_byte; lia.
Qed.

(** C1.  Decoding the base64 encoding of an even-length byte sequence gives
    one sample per pair of bytes, and sample [i] is exactly the rational
    [v / 32768] for [v] the little-endian signed 16-bit reading of bytes
    [2i] and [2i+1] (the division and the binary32 store round nothing).
    The bytes 00 00 00 80, encoded as AAAAgA==, decode to 0.0 and -1.0. *)
Theorem decode_encode_samples :
  (forall bs, Forall is_byte bs -> Nat.even (length bs) = true ->
     exists samples,
       PCM.decode (Base64.encode bs) = inr samples
       /\ length bs = (2 * length samples)%nat
       /\ forall i, (i < length samples)%nat ->
            exists x q,
              nth_error samples i = Some x
              /\ PCM.SF2Q x = Some q
              /\ Qeq q (Spec.int16_le (nth (2 * i) bs 0) (nth (2 * i + 1) bs 0) # 32768))
  /\ Base64.encode [0; 0; 0; 128] = JS.lit "AAAAgA=="
  /\ PCM.decode (JS.lit "AAAAgA==")
     = inr [S754_zero false; S754_finite true 8388608 (-23)]
  /\ PCM.SF2Q (S754_zero false) = Some 0%Q
  /\ PCM.SF2Q (S754_finite true 8388608 (-23)) = Some (-8388608 # 8388608)%Q
  /\ (-8388608 # 8388608 == -1)%Q.
Proof.
  split; [|repeat split].
  intros bs Hb He.
  exists (List.map PCM.sample_of_int16 (PCM.int16_elements bs)).
  split; [apply decode_encode; assumption|].
  rewrite length_map. split; [apply int16_elements_length; assumption|].
  intros i Hi.
  pose proof (int16_elements_length bs He) as Hlen.
  rewrite nth_error_map, int16_elements_nth by lia. cbn [option_map].
  pose proof (nth_is_byte bs (2 * i) Hb) as Hlo.
  pose proof (nth_is_byte bs (2 * i + 1) Hb) as Hhi.
  rewrite (signed16_int16_le _ _ Hlo Hhi).
  destruct (sample_of_int16_exact
              (Spec.int16_le (nth (2 * i) bs 0) (nth (2 * i + 1) bs 0)))
    as (q & Hq & Heq).
  { rewrite <- (signed16_int16_le _ _ Hlo Hhi).
    apply signed16_range. unfold is_byte in *. lia. }
  exists (PCM.sample_of_int16 (Spec.int16_le (nth (2 * i) bs 0) (nth (2 * i + 1) bs 0))), q.
  auto.
Qed.

Lemma decode_encode_samples_witness :
  exists samples,
    PCM.decode (Base64.encode [255; 127; 1; 0]) = inr samples
    /\ length samples = 2%nat.
Proof.
  destruct (proj1 decode_encode_samples [255; 127; 1; 0]) as (samples & Hd & Hl & _).
  - repeat constructor; unfold is_byte; lia.
  - reflexivity.
  - exists samples. split; [exact Hd|]. cbn in Hl. lia.
Defined.

(** ** Single flight *)

Lemma flag_after_update a s :
  isProcessing (hooks (update a s)) = flag_after a (isProcessing (hooks s)).
Proof. destruct a; reflexivity. Qed.

Lemma advance_busy {A} host (p : Prog A) : forall s,
  busy_at_awaits p (isProcessing (hooks s)) ->
  forall q k s', advance host p s = (Suspended q k, s') ->
  isProcessing (hooks s') = true /\ forall o, busy_at_awaits (k o) true.
Proof.
  induction p as [a|e|a k IH|k IH|e k IH|c k IH|r k IH]; intros s Hb q' k' s' Hadv;
    cbn [advance busy_at_awaits] in *.
  - discriminate.
  - discriminate.
  - eapply IH; [|eassumption]. rewrite flag_after_update. assumption.
  - eapply IH; [|eassumption]. auto.
  - eapply IH; [|eassumption]. assumption.
  - eapply IH; [|eassumption]. auto.
  - injection Hadv as <- <- <-. destruct Hb as [Hb Hk]. auto.
Qed.

Ltac busy :=
  repeat (cbn [busy_at_awaits bind try_catch try_finally await host_call do_ emit
               flag_after];
          match goal with
          | |- True => exact I
          | |- _ /\ _ => split
          | |- _ = _ => reflexivity
          | |- forall _, _ => intro
          | |- busy_at_awaits ?p _ =>
              match p with
              | context [match ?x with _ => _ end] => destruct x
              end
          end).

Lemma processImage_busy r file b : busy_at_awaits (App.processImage r file) b.
Proof.
  unfold App.processImage, GeminiService.extractText, GeminiService.generateSpeech,
    App.playPCMAudio, App.speakStatus, App.play.
  busy.
Qed.

Lemma handleFileChange_busy r file b : busy_at_awaits (App.handleFileChange r file) b.
Proof. destruct file; [apply processImage_busy | exact I]. Qed.

(** [advance] and [run] agree: running is advancing, settling the request
    as the environment says, and running on. *)
Lemma run_advance env {A} (p : Prog A) : forall s,
  match advance (host env) p s with
  | (Finished c, s') => completion (run env p s) = c /\ final (run env p s) = s'
  | (Suspended q k, s') =>
      completion (run env p s) = completion (run env (k (settle env q)) s')
      /\ final (run env p s) = final (run env (k (settle env q)) s')
  end.
Proof.
  induction p as [a|e|a k IH|k IH|e k IH|c k IH|r k IH]; intros s;
    cbn [advance run logged completion final]; auto; apply IH.
Qed.

Lemma single_flight_landed host (p : Prog unit) s :
  busy_at_awaits p (isProcessing (hooks s)) ->
  single_flight
    (let '(st, s') := advance host p s in
     {| store := s'; chooser := false; flights := landed st |}).
Proof.
  intros Hb. destruct (advance host p s) as [[c|q k] s'] eqn:E.
  - left. reflexivity.
  - right. exists q, k. destruct (advance_busy host p s Hb q k s' E) as [H1 H2].
    cbn. auto.
Qed.

Lemma single_flight_event host u u' :
  single_flight u -> event host u u' -> single_flight u'.
Proof.
  intros Hinv Hev. destruct Hev as [u Hdis Hch | u file Hch | u before q k after o Hfl
                                   | u l | u Hdis].
  - destruct Hinv as [E | (q & k & E & Hp & _)].
    + left. exact E.
    + unfold App.capture_disabled in Hdis. congruence.
  - destruct Hinv as [E | (q & k & _ & _ & Hc & _)]; [|congruence].
    rewrite E, ?app_nil_r.
    pose proof (single_flight_landed host
                  (App.handleFileChange (hooks (store u)) file) (store u)
                  (handleFileChange_busy _ _ _)) as H.
    destruct (advance host _ (store u)) as [st s']. rewrite app_nil_r. exact H.
  - destruct Hinv as [E | (q0 & k0 & E & Hp & Hc & Hk)].
    + rewrite E in Hfl. destruct before; discriminate.
    + rewrite E in Hfl.
      destruct before as [|x before].
      * injection Hfl as <- <- <-. cbn [app].
        pose proof (single_flight_landed host (k0 o) (store u)) as H.
        rewrite Hp in H. specialize (H (Hk o)).
        destruct (advance host (k0 o) (store u)) as [st s'].
        rewrite app_nil_r, Hc. exact H.
      * injection Hfl as _ Hfl. destruct before; discriminate.
  - destruct Hinv as [E | (q & k & E & Hp & Hc & Hk)].
    + left. exact E.
    + right. exists q, k. cbn. auto.
  - destruct Hinv as [E | (q & k & E & Hp & _)].
    + left. exact E.
    + unfold App.replay_disabled in Hdis. rewrite Hp in Hdis. discriminate.
Qed.

Lemma single_flight_reachable host u : reachable host u -> single_flight u.
Proof.
  induction 1 as [|u u' _ IH Hev].
  - left. reflexivity.
  - exact (single_flight_event host u u' IH Hev).
Qed.

(** C8.  In every state the page can reach by its events, at most one
    capture is in flight; while one is, [isProcessing] holds, so both
    capture buttons are disabled, and no chooser is open: a chooser only
    ever closes, and so a capture only ever starts, when no capture is in
    flight. *)
Theorem at_most_one_capture_in_flight host u :
  reachable host u ->
  (length (flights u) <= 1)%nat
  /\ (flights u <> [] ->
      isProcessing (hooks (store u)) = true
      /\ App.capture_disabled (hooks (store u)) = true
      /\ chooser u = false)
  /\ (chooser u = true -> flights u = []).
Proof.
  intros Hr. destruct (single_flight_reachable host u Hr)
    as [E | (q & k & E & Hp & Hc & _)].
  - rewrite E. cbn. repeat split; try lia; congruence.
  - rewrite E. cbn. repeat split; try lia; try assumption. congruence.
Qed.

Lemma capturing_reachable : reachable (fun _ => true) capturing.
Proof.
  eapply reachable_event.
  - eapply reachable_event; [apply reachable_mounted|].
    apply click_capture; reflexivity.
  - apply (chooser_closed (fun _ => true)
             {| store := boot; chooser := true; flights := [] |} (Some photo)).
    reflexivity.
Defined.

Lemma at_most_one_capture_in_flight_witness :
  length (flights capturing) = 1%nat
  /\ isProcessing (hooks (store capturing)) = true.
Proof.
  split; [reflexivity|].
  apply (proj1 (proj2 (at_most_one_capture_in_flight (fun _ => true) capturing
                         capturing_reachable))).
  discriminate.
Defined.

(** A text that [extractText] returns without an error is the text of the
    response with the white space at its two ends removed and nothing
    else changed: the response is that text between two runs of white
    space, the text starts and ends with a character that is not white
    space, it is not the marker NO_TEXT_FOUND, and trimming it again
    changes nothing. *)
Theorem recognized_text_is_trimmed_response env base64Data mimeType langPrompt s res :
  completion (run env (GeminiService.extractText base64Data mimeType langPrompt) s)
    = Normal res ->
  GeminiService.error res = None ->
  exists response pre post,
    settle env (generateContent_OCR base64Data mimeType langPrompt)
      = Fulfilled (Some response)
    /\ response = pre ++ GeminiService.text res ++ post
    /\ all_space pre = true /\ all_space post = true
    /\ (exists c t, GeminiService.text res = c :: t /\ JS.is_space c = false)
    /\ (exists t c, GeminiService.text res = t ++ [c] /\ JS.is_space c = false)
    /\ GeminiService.text res <> JS.lit "NO_TEXT_FOUND"
    /\ JS.trim (GeminiService.text res) = GeminiService.text res.
Proof.
  intros Hrun Herr. apply recognition_result in Hrun. subst res.
  destruct (settle env (generateContent_OCR base64Data mimeType langPrompt))
    as [result_text|]; [|discriminate Herr].
  unfold recognized in *. rewrite or_else_trim in *.
  destruct (JS.eqb _ _) eqn:E1; [discriminate Herr|].
  destruct (JS.truthy _) eqn:E2; [|discriminate Herr].
  cbn [orb negb GeminiService.text] in *.
  destruct result_text as [response|]; [|discriminate E2].
  destruct (trim_spec response) as ((pre & post & Hs & Hpre & Hpost) & Hends & Hidem).
  exists response, pre, post.
  split; [reflexivity|]. split; [exact Hs|]. split; [exact Hpre|]. split; [exact Hpost|].
  destruct Hends as [E | [Hhd Hlast]]; [rewrite E in E2; discriminate|].
  split; [exact Hhd|]. split; [exact Hlast|]. split; [|exact Hidem].
  intros E. apply eqb_eq in E. unfold GeminiService.NO_TEXT_FOUND in E1. congruence.
Qed.

Lemma recognized_text_is_trimmed_response_witness :
  exists response pre post,
    response = JS.lit " Hola  " /\ response = pre ++ JS.lit "Hola" ++ post
    /\ all_space pre = true /\ all_space post = true.
Proof.
  destruct (recognized_text_is_trimmed_response
              (responses (Fulfilled None) (Fulfilled (Some (JS.lit " Hola  "))) Rejected true)
              None (JS.lit "image/jpeg") (JS.lit "english") boot
              {| GeminiService.text := JS.lit "Hola"; GeminiService.error := None |}
              eq_refl eq_refl)
    as (response & pre & post & Hs & Hr & Hpre & Hpost & _).
  exists response, pre, post. cbn in Hs. injection Hs as Hs.
  repeat split; auto.
Defined.

(** ** The decoder on any input *)

Lemma int16_elements_range bs :
  Forall is_byte bs ->
  Forall (fun v => -32768 <= v < 32768) (PCM.int16_elements bs).
Proof.
  induction bs as [| a | a b l IH] using list_ind2; intros H; cbn [PCM.int16_elements].
  - constructor.
  - constructor.
  - inversion H as [|? ? Ha H']; subst. inversion H' as [|? ? Hb Hl]; subst.
    constructor; [|apply IH, Hl].
    apply signed16_range. unfold is_byte in *. lia.
Qed.

Lemma sample_of_int16_unit v : -32768 <= v < 32768 -> unit_sample (PCM.sample_of_int16 v).
Proof.
  intros Hv. destruct (sample_of_int16_exact v Hv) as (q & Hq & E).
  exists q. split; [exact Hq|]. rewrite E.
  unfold Qle, Qlt. cbn [Qnum Qden]. lia.
Qed.

Lemma list_ind4 {A : Type} (P : list A -> Prop) :
  P [] -> (forall a, P [a]) -> (forall a b, P [a; b]) -> (forall a b c, P [a; b; c]) ->
  (forall a b c d l, P l -> P (a :: b :: c :: d :: l)) ->
  forall l, P l.
Proof.
  intros P0 P1 P2 P3 P4. fix IH 1.
  intros [|a [|b [|c [|d l]]]];
    [exact P0 | apply P1 | apply P2 | apply P3 | apply P4, IH].
Qed.

Lemma index_of_range c i : Base64.index_of c = Some i -> is_sextet i.
Proof.
  unfold Base64.index_of, is_sextet.
  repeat match goal with
         | |- context [if ?b then _ else _] =>
             let E := fresh "E" in destruct b eqn:E
         end;
    intros [= <-]; try discriminate; lia.
Qed.

Lemma indexes_range d : forall l, Base64.indexes d = Some l -> Forall is_sextet l.
Proof.
  induction d as [|c d IH]; intros l; cbn [Base64.indexes].
  - intros [= <-]. constructor.
  - destruct (Base64.index_of c) as [i|] eqn:Ei; [|discriminate].
    destruct (Base64.indexes d) as [l'|]; [|discriminate].
    intros [= <-]. constructor; [eapply index_of_range, Ei | apply IH; reflexivity].
Qed.

Lemma octets_range l : Forall is_sextet l -> Forall is_byte (Base64.octets l).
Proof.
  induction l as [| a | a b | a b c | a b c d l IH] using list_ind4; intros H;
    cbn [Base64.octets]; cbv zeta.
  - constructor.
  - constructor.
  - inversion H as [|? ? Ha H1]; subst. inversion H1 as [|? ? Hb _]; subst.
    repeat constructor; unfold is_sextet, is_byte in *;
      Z.div_mod_to_equations; lia.
  - inversion H as [|? ? Ha H1]; subst. inversion H1 as [|? ? Hb H2]; subst.
    inversion H2 as [|? ? Hc _]; subst.
    repeat constructor; unfold is_sextet, is_byte in *;
      Z.div_mod_to_equations; lia.
  - inversion H as [|? ? Ha H1]; subst. inversion H1 as [|? ? Hb H2]; subst.
    inversion H2 as [|? ? Hc H3]; subst. inversion H3 as [|? ? Hd H4]; subst.
    repeat (constructor; [unfold is_sextet, is_byte in *;
                          Z.div_mod_to_equations; lia|]).
    apply IH, H4.
Qed.

Lemma atob_bytes base64Data bytes :
  Base64.atob base64Data = Some bytes -> Forall is_byte bytes.
Proof.
  unfold Base64.atob. cbv zeta.
  destruct (Nat.eqb _ 1); [discriminate|].
  destruct (Base64.indexes _) as [l|] eqn:E; [|discriminate].
  intros [= <-]. eapply octets_range, indexes_range, E.
Qed.

Lemma decode_samples base64Data samples :
  PCM.decode base64Data = inr samples ->
  exists bytes,
    Base64.atob base64Data = Some bytes
    /\ Forall is_byte bytes
    /\ PCM.Uint8Array_from bytes = bytes
    /\ samples = List.map PCM.sample_of_int16 (PCM.int16_elements bytes)
    /\ length bytes = (2 * length samples)%nat
    /\ Forall unit_sample samples.
Proof.
  unfold PCM.decode, PCM.Int16Array_of_buffer.
  destruct (Base64.atob base64Data) as [bytes|] eqn:Ea; [|discriminate].
  pose proof (atob_bytes base64Data bytes Ea) as Hb.
  rewrite (Uint8Array_from_bytes bytes Hb).
  destruct (Nat.even (length bytes)) eqn:He; [|discriminate].
  intros [= <-].
  exists bytes. split; [reflexivity|]. split; [exact Hb|].
  split; [apply Uint8Array_from_bytes, Hb|]. split; [reflexivity|].
  rewrite length_map. split.
  - apply int16_elements_length, He.
  - apply Forall_map. apply int16_elements_range in Hb.
    revert Hb. apply Forall_impl. intros v. apply sample_of_int16_unit.
Qed.

(** The decoder of [playPCMAudio] on any string.  It fails with
    InvalidCharacterError exactly when [atob] rejects the string, with
    RangeError exactly when [atob] gives an odd number of bytes, and
    otherwise gives one sample for every two bytes, each of them a finite
    number from -1 (included) to 1 (excluded): no not-a-number, no
    infinity, nothing out of the range of an audio sample.  The string
    [atob] returns holds only code units below 256, so the copy into the
    [Uint8Array] truncates nothing and the samples are those of the very
    bytes [atob] decoded. *)
Theorem decode_cases base64Data :
  match PCM.decode base64Data with
  | inl PCM.InvalidCharacterError => Base64.atob base64Data = None
  | inl PCM.RangeError =>
      exists bytes, Base64.atob base64Data = Some bytes /\ Nat.odd (length bytes) = true
  | inr samples =>
      exists bytes,
        Base64.atob base64Data = Some bytes
        /\ Forall is_byte bytes
        /\ PCM.Uint8Array_from bytes = bytes
        /\ samples = List.map PCM.sample_of_int16 (PCM.int16_elements bytes)
        /\ length bytes = (2 * length samples)%nat
        /\ Forall unit_sample samples
  end.
Proof.
  destruct (PCM.decode base64Data) as [[|]|samples] eqn:Ed.
  - unfold PCM.decode in Ed.
    destruct (Base64.atob base64Data) as [bytes|]; [|reflexivity].
    destruct (PCM.Int16Array_of_buffer _); discriminate Ed.
  - unfold PCM.decode, PCM.Int16Array_of_buffer in Ed.
    destruct (Base64.atob base64Data) as [bytes|]; [|discriminate Ed].
    exists bytes. split; [reflexivity|].
    unfold PCM.Uint8Array_from in Ed. rewrite length_map in Ed.
    rewrite <- Nat.negb_even.
    destruct (Nat.even (length bytes)); [discriminate Ed | reflexivity].
  - apply decode_samples, Ed.
Qed.

(** ** Every capture, whatever the environment does *)

Lemma processImage_cases env r file s :
  let out := run env (App.processImage r file) s in
  (settle env (readAsDataURL file) = Rejected
   /\ out = {| completion := Normal tt;
               final := update (setIsProcessing false)
                          (update (setError (Some (App.generic_error r))) (reset s));
               trace := EvRequest (readAsDataURL file) :: EvConsoleError
                          :: speak_events r (App.generic_error r) |})
  \/ exists base64Data,
      settle env (readAsDataURL file) = Fulfilled base64Data
      /\ let ocrResult := recognized (settle env (ocr_request r file base64Data)) in
         (no_text ocrResult = true
          /\ out = {| completion := Normal tt;
                      final := update (setIsProcessing false)
                                 (update (setIsProcessing false)
                                    (update (setError (Some (errorMsg (App.langConfig r))))
                                       (reset s)));
                      trace := EvRequest (readAsDataURL file)
                                 :: settle_log env (ocr_request r file base64Data)
                                 ++ speak_events r (errorMsg (App.langConfig r)) |})
         \/ (no_text ocrResult = false
             /\ synthesized (settle env (tts_request r (GeminiService.text ocrResult)))
                = None
             /\ out = {| completion := Normal tt;
                         final := update (setIsProcessing false)
                                    (update (setLastText (Some (GeminiService.text ocrResult)))
                                       (reset s));
                         trace := EvRequest (readAsDataURL file)
                                    :: settle_log env (ocr_request r file base64Data)
                                    ++ settle_log env
                                         (tts_request r (GeminiService.text ocrResult))
                                    ++ speak_events r (GeminiService.text ocrResult) |})
         \/ (no_text ocrResult = false
             /\ exists payload,
                 synthesized (settle env (tts_request r (GeminiService.text ocrResult)))
                 = Some payload
                 /\ payload <> []
                 /\ let playing :=
                      run env (App.playPCMAudio r payload)
                        (update (setAudioData (Some payload))
                           (update (setLastText (Some (GeminiService.text ocrResult)))
                              (reset s))) in
                    out = {| completion := Normal tt;
                             final := update (setIsProcessing false) (final playing);
                             trace := EvRequest (readAsDataURL file)
                                        :: settle_log env (ocr_request r file base64Data)
                                        ++ settle_log env
                                             (tts_request r (GeminiService.text ocrResult))
                                        ++ trace playing |}).
Proof.
  intros out. unfold out.
  destruct (settle env (readAsDataURL file)) as [base64Data|] eqn:Hread.
  - right. exists base64Data. split; [reflexivity|].
    set (ocrResult := recognized (settle env (ocr_request r file base64Data))).
    destruct (no_text ocrResult) eqn:Hcond.
    + left. split; [reflexivity|]. apply processImage_no_text; assumption.
    + right.
      destruct (synthesized (settle env (tts_request r (GeminiService.text ocrResult))))
        as [payload|] eqn:Htts.
      * right. split; [reflexivity|]. exists payload. split; [reflexivity|].
        split; [eapply synthesized_truthy; exact Htts|].
        apply processImage_payload; assumption.
      * left. split; [reflexivity|]. split; [reflexivity|].
        apply processImage_no_payload; assumption.
  - left. split; [reflexivity|]. apply processImage_read_rejected, Hread.
Qed.

Lemma no_text_false_text ocrResult :
  no_text ocrResult = false -> GeminiService.text ocrResult <> [].
Proof.
  unfold no_text. intros H E. rewrite E in H.
  destruct (JS.truthy_opt _); discriminate.
Qed.

Lemma capture_shape env r file s :
  let h := hooks (final (run env (App.processImage r file) s)) in
  isProcessing h = false
  /\ selectedLang h = selectedLang (hooks s)
  /\ ((exists T, lastText h = Some T /\ T <> [] /\ error h = None
                 /\ (audioData h = None \/ exists a, audioData h = Some a /\ a <> []))
      \/ (lastText h = None /\ audioData h = None
          /\ (error h = Some (errorMsg (App.langConfig r))
              \/ error h = Some (App.generic_error r)))).
Proof.
  cbv zeta.
  destruct (processImage_cases env r file s)
    as [[_ ->] | (d & _ & [[_ ->] | [(Hc & _ & ->) | (Hc & payload & _ & Hne & ->)]])];
    cbn [final].
  - destruct s as [[l p e t a] c]. cbn. repeat split. right. auto.
  - destruct s as [[l p e t a] c]. cbn. repeat split. right. auto.
  - apply no_text_false_text in Hc.
    destruct s as [[l p e t a] c]. cbn.
    split; [reflexivity|]. split; [reflexivity|].
    left. eexists. repeat split; auto.
  - apply no_text_false_text in Hc.
    destruct (playPCMAudio_run env r payload
                (update (setAudioData (Some payload))
                   (update (setLastText
                      (Some (GeminiService.text
                               (recognized (settle env (ocr_request r file d))))))
                      (reset s)))) as (_ & Hh & _).
    destruct (final (run env (App.playPCMAudio r payload) _)) as [h' c'].
    cbn [hooks] in Hh. subst h'.
    destruct s as [[l p e t a] c]. cbn.
    split; [reflexivity|]. split; [reflexivity|].
    left. eexists. repeat split; auto. right. eexists. split; [reflexivity | exact Hne].
Qed.


Lemma requests_app a b : requests (a ++ b) = requests a ++ requests b.
Proof. apply flat_map_app. Qed.

Lemma quiet_prefix pre t :
  quiet pre = true ->
  spoken (pre ++ t) = spoken t
  /\ played (pre ++ t) = played t
  /\ utterances (pre ++ t) = utterances t
  /\ cancel_before_speak (pre ++ t) = cancel_before_speak t.
Proof.
  induction pre as [|e pre IH]; intros H; [repeat split|].
  cbn [quiet forallb] in H. apply andb_prop in H. destruct H as [He Hq].
  destruct (IH Hq) as (H1 & H2 & H3 & H4).
  destruct e; try discriminate He; cbn [app]; repeat split; assumption.
Qed.

Lemma quiet_settle_log env q : quiet (settle_log env q) = true.
Proof. unfold settle_log. destruct (settle env q); reflexivity. Qed.

Lemma requests_settle_log env q : requests (settle_log env q) = [q].
Proof. unfold settle_log. destruct (settle env q); reflexivity. Qed.

Lemma quiet_app a b : quiet (a ++ b) = quiet a && quiet b.
Proof. apply forallb_app. Qed.

Lemma quiet_requests1 env q a : quiet (EvRequest q :: settle_log env a) = true.
Proof. apply (quiet_settle_log env a). Qed.

Lemma quiet_requests2 env q a b :
  quiet (EvRequest q :: settle_log env a ++ settle_log env b) = true.
Proof.
  change (quiet (settle_log env a ++ settle_log env b) = true).
  rewrite quiet_app, !quiet_settle_log. reflexivity.
Qed.

(** What one call of [playPCMAudio] lets out. *)
Lemma playPCMAudio_outputs env r base64Data s :
  let t := trace (run env (App.playPCMAudio r base64Data) s) in
  (length (spoken t) + length (played t) <= 1)%nat
  /\ requests t = []
  /\ cancel_before_speak t = true
  /\ (forall text lang rate, In (text, lang, rate) (utterances t) ->
        lastText r = Some text /\ text <> []
        /\ lang = code (App.langConfig r) /\ rate = (9 # 10)%Q)
  /\ (spoken t = [] -> played t = [] -> JS.truthy_opt (lastText r) = false).
Proof.
  destruct (playPCMAudio_run env r base64Data s) as (_ & _ & _ & Ht).
  cbv zeta in *. rewrite Ht. clear Ht.
  unfold context_events, context_ready, decode_and_start, fallback_events.
  destruct (audioContextRef s); cbn [orb app];
    destruct (host env (new_AudioContext 24000)); cbn [app];
    destruct (PCM.decode base64Data) as [e|[|x xs]];
    try destruct (host env (start_buffer 1 (x :: xs) 24000));
    destruct (lastText r) as [[|c t]|]; cbn;
    (split; [lia|]); (split; [reflexivity|]); (split; [reflexivity|]);
    (split; [|intros; try reflexivity; discriminate]);
    intros text lang rate H;
    repeat (destruct H as [H|H]; [injection H as <- <- <-|]); try contradiction;
    repeat split; discriminate.
Qed.




Lemma processImage_render r1 r2 file :
  selectedLang r1 = selectedLang r2 -> lastText r1 = lastText r2 ->
  App.processImage r1 file = App.processImage r2 file.
Proof.
  destruct r1 as [l1 p1 e1 t1 a1], r2 as [l2 p2 e2 t2 a2]. cbn.
  intros -> ->. reflexivity.
Qed.

Lemma playPCMAudio_store env r base64Data s1 s2 :
  audioContextRef s1 = audioContextRef s2 ->
  trace (run env (App.playPCMAudio r base64Data) s1)
  = trace (run env (App.playPCMAudio r base64Data) s2)
  /\ audioContextRef (final (run env (App.playPCMAudio r base64Data) s1))
     = audioContextRef (final (run env (App.playPCMAudio r base64Data) s2)).
Proof.
  intros E.
  destruct (playPCMAudio_run env r base64Data s1) as (_ & _ & Hc1 & Ht1).
  destruct (playPCMAudio_run env r base64Data s2) as (_ & _ & Hc2 & Ht2).
  cbv zeta in *. rewrite Ht1, Ht2, Hc1, Hc2.
  unfold context_events, context_ready. rewrite E. split; reflexivity.
Qed.

(** What a capture depends on.  Of the render that started it, only the
    selected language and the text that render held; of the store, only
    whether an audio context exists.  Two captures of the same file that
    agree on these, in the same environment, make the same requests and
    sounds in the same order and leave the same processing flag, error,
    text, payload and audio context: nothing else of an earlier capture
    survives the four resets at the head of [processImage]. *)
Theorem capture_depends_on env r1 r2 file s1 s2 :
  selectedLang r1 = selectedLang r2 ->
  lastText r1 = lastText r2 ->
  audioContextRef s1 = audioContextRef s2 ->
  let out1 := run env (App.processImage r1 file) s1 in
  let out2 := run env (App.processImage r2 file) s2 in
  trace out1 = trace out2
  /\ isProcessing (hooks (final out1)) = isProcessing (hooks (final out2))
  /\ error (hooks (final out1)) = error (hooks (final out2))
  /\ lastText (hooks (final out1)) = lastText (hooks (final out2))
  /\ audioData (hooks (final out1)) = audioData (hooks (final out2))
  /\ audioContextRef (final out1) = audioContextRef (final out2).
Proof.
  intros Hl Ht Hctx. cbv zeta.
  rewrite <- (processImage_render r1 r2 file Hl Ht).
  destruct (processImage_cases env r1 file s1)
    as [[Hread ->]
       | (d & Hread & [[Hc ->] | [(Hc & Htts & ->) | (Hc & payload & Htts & Hne & ->)]])].
  - rewrite (processImage_read_rejected env r1 file s2 Hread).
    destruct s1 as [[l1 p1 e1 t1 a1] c1], s2 as [[l2 p2 e2 t2 a2] c2].
    cbn in *. subst. repeat split.
  - rewrite (processImage_no_text env r1 file s2 d Hread Hc).
    destruct s1 as [[l1 p1 e1 t1 a1] c1], s2 as [[l2 p2 e2 t2 a2] c2].
    cbn in *. subst. repeat split.
  - rewrite (processImage_no_payload env r1 file s2 d Hread Hc Htts).
    destruct s1 as [[l1 p1 e1 t1 a1] c1], s2 as [[l2 p2 e2 t2 a2] c2].
    cbn in *. subst. repeat split.
  - rewrite (processImage_payload env r1 file s2 d Hread Hc payload Htts).
    set (T := GeminiService.text (recognized (settle env (ocr_request r1 file d)))) in *.
    set (st1 := update (setAudioData (Some payload))
                  (update (setLastText (Some T)) (reset s1))).
    set (st2 := update (setAudioData (Some payload))
                  (update (setLastText (Some T)) (reset s2))).
    destruct (playPCMAudio_store env r1 payload st1 st2) as (Et & Ec).
    { unfold st1, st2. destruct s1, s2. exact Hctx. }
    destruct (playPCMAudio_run env r1 payload st1) as (_ & Hh1 & _).
    destruct (playPCMAudio_run env r1 payload st2) as (_ & Hh2 & _).
    cbv zeta in *. cbn [trace final]. rewrite Et.
    destruct (final (run env (App.playPCMAudio r1 payload) st1)) as [h1 c1].
    destruct (final (run env (App.playPCMAudio r1 payload) st2)) as [h2 c2].
    cbn [hooks audioContextRef] in *. subst h1 h2 c1.
    unfold st1, st2.
    destruct s1 as [[l1 p1 e1 t1 a1] c1], s2 as [[l2 p2 e2 t2 a2] c2'].
    cbn. repeat split.
Qed.

Lemma capture_depends_on_witness :
  trace (run (responses (Fulfilled None) (Fulfilled (Some (JS.lit "Hola"))) Rejected true)
           (App.processImage fresh photo) boot)
  = trace (run (responses (Fulfilled None) (Fulfilled (Some (JS.lit "Hola"))) Rejected true)
             (App.processImage
                {| selectedLang := ca; isProcessing := false;
                   error := Some (JS.lit "x"); lastText := None;
                   audioData := Some (JS.lit "AAAA") |} photo)
             {| hooks := {| selectedLang := fr; isProcessing := false;
                            error := Some (JS.lit "x"); lastText := Some (JS.lit "Hi");
                            audioData := Some (JS.lit "AAAA") |};
                audioContextRef := false |}).
Proof.
  apply (capture_depends_on
           (responses (Fulfilled None) (Fulfilled (Some (JS.lit "Hola"))) Rejected true)
           fresh
           {| selectedLang := ca; isProcessing := false;
              error := Some (JS.lit "x"); lastText := None;
              audioData := Some (JS.lit "AAAA") |}
           photo boot
           {| hooks := {| selectedLang := fr; isProcessing := false;
                          error := Some (JS.lit "x"); lastText := Some (JS.lit "Hi");
                          audioData := Some (JS.lit "AAAA") |};
              audioContextRef := false |}
           eq_refl eq_refl eq_refl).
Defined.

(** The requests of a capture, in order: the read of the file; then, when
    the read gave a result, one recognition request carrying that result,
    the type of the file and the prompt name of the render's language;
    then, exactly when a text is stored at the end, one speech request
    for that very text with the voice of the render's language.  Nothing
    is requested twice and speech is never requested for a text other
    than the one stored. *)
Theorem capture_requests env r file s :
  let out := run env (App.processImage r file) s in
  let lang := App.SUPPORTED_LANGUAGES (selectedLang r) in
  match settle env (readAsDataURL file) with
  | Rejected => requests (trace out) = [readAsDataURL file]
  | Fulfilled base64Data =>
      requests (trace out)
      = readAsDataURL file
          :: generateContent_OCR base64Data (type file) (prompt lang)
          :: match lastText (hooks (final out)) with
             | Some text => [generateContent_TTS text (voice lang)]
             | None => []
             end
  end.
Proof.
  cbv zeta.
  destruct (processImage_cases env r file s)
    as [[Hread ->]
       | (d & Hread & [[Hc ->] | [(Hc & Htts & ->) | (Hc & payload & Htts & Hne & ->)]])];
    rewrite Hread; cbn [trace final].
  - reflexivity.
  - cbn [requests flat_map app]. fold (requests (settle_log env (ocr_request r file d)
                                                   ++ speak_events r (errorMsg (App.langConfig r)))).
    rewrite requests_app, requests_settle_log.
    destruct s as [[l p e t a] c]. reflexivity.
  - cbn [requests flat_map app].
    match goal with |- context [flat_map ?f ?l] => change (flat_map f l) with (requests l) end.
    rewrite !requests_app, !requests_settle_log.
    destruct s as [[l p e t a] c]. reflexivity.
  - cbn [requests flat_map app].
    match goal with |- context [flat_map ?f ?l] => change (flat_map f l) with (requests l) end.
    rewrite !requests_app, !requests_settle_log.
    match goal with |- context [run env (App.playPCMAudio r payload) ?st] =>
      destruct (playPCMAudio_outputs env r payload st) as (_ & Hq & _);
      destruct (playPCMAudio_run env r payload st) as (_ & Hh & _);
      cbv zeta in Hq, Hh; rewrite Hq;
      destruct (final (run env (App.playPCMAudio r payload) st)) as [h' c'];
      cbn [hooks] in Hh; subst h'
    end.
    destruct s as [[l p e t a] c]. reflexivity.
Qed.

(** ** The audio context, and replay after a capture *)

Lemma playPCMAudio_creations env r base64Data s :
  context_creations (trace (run env (App.playPCMAudio r base64Data) s))
  = if audioContextRef s then 0%nat else 1%nat.
Proof.
  destruct (playPCMAudio_run env r base64Data s) as (_ & _ & _ & Ht).
  cbv zeta in Ht. rewrite Ht.
  unfold context_events, context_ready, decode_and_start, fallback_events.
  destruct (audioContextRef s); cbn [orb app];
    destruct (host env (new_AudioContext 24000)); cbn [app];
    destruct (PCM.decode base64Data) as [e|[|x xs]];
    try destruct (host env (start_buffer 1 (x :: xs) 24000));
    destruct (lastText r) as [[|c t]|]; reflexivity.
Qed.

Lemma playPCMAudio_played env r base64Data s samples :
  played (trace (run env (App.playPCMAudio r base64Data) s)) = [samples] ->
  PCM.decode base64Data = inr samples
  /\ samples <> []
  /\ host env (start_buffer 1 samples 24000) = true
  /\ context_ready env s = true.
Proof.
  destruct (playPCMAudio_run env r base64Data s) as (_ & _ & _ & Ht).
  cbv zeta in Ht. rewrite Ht.
  unfold context_events, context_ready, decode_and_start, fallback_events.
  destruct (audioContextRef s); cbn [orb app];
    destruct (host env (new_AudioContext 24000)) eqn:Hnew; cbn [app];
    destruct (PCM.decode base64Data) as [e|[|x xs]];
    try destruct (host env (start_buffer 1 (x :: xs) 24000)) eqn:Hstart;
    destruct (lastText r) as [[|c t]|]; cbn; intros H;
    try discriminate H; injection H as <-; repeat split; auto; discriminate.
Qed.

Lemma playPCMAudio_plays env r base64Data s samples :
  PCM.decode base64Data = inr samples -> samples <> [] ->
  host env (start_buffer 1 samples 24000) = true ->
  audioContextRef s = true ->
  trace (run env (App.playPCMAudio r base64Data) s)
  = [EvHost (start_buffer 1 samples 24000) true].
Proof.
  intros Hd Hne Hstart Hctx.
  destruct (playPCMAudio_run env r base64Data s) as (_ & _ & _ & Ht).
  cbv zeta in Ht. rewrite Ht.
  unfold context_events, context_ready, decode_and_start. rewrite Hctx, Hd. cbn [orb app].
  destruct samples as [|x xs]; [contradiction|]. rewrite Hstart. reflexivity.
Qed.

(** The audio context is created when first needed and kept.  A call of
    [playPCMAudio] constructs a context exactly when the ref holds none,
    and afterwards the ref holds one exactly when it did or the
    construction succeeded; without a context nothing is played.  A later
    call, whatever the host answers by then, constructs one exactly when
    the earlier call left none, so a failed construction is tried afresh
    and may succeed; once a construction has succeeded no later call
    constructs another. *)
Theorem audio_context_is_created_once env1 env2 r1 data1 r2 data2 s :
  let first := run env1 (App.playPCMAudio r1 data1) s in
  let second := run env2 (App.playPCMAudio r2 data2) (final first) in
  context_creations (trace first) = (if audioContextRef s then 0%nat else 1%nat)
  /\ audioContextRef (final first)
     = (audioContextRef s || host env1 (new_AudioContext 24000))
  /\ (audioContextRef (final first) = false -> played (trace first) = [])
  /\ context_creations (trace second)
     = (if audioContextRef s || host env1 (new_AudioContext 24000) then 0%nat else 1%nat)
  /\ audioContextRef (final second)
     = (audioContextRef s || host env1 (new_AudioContext 24000)
        || host env2 (new_AudioContext 24000))
  /\ (audioContextRef (final first) = true ->
      context_creations (trace second) = 0%nat
      /\ audioContextRef (final second) = true).
Proof.
  cbv zeta.
  destruct (playPCMAudio_run env1 r1 data1 s) as (_ & _ & Hctx & Ht).
  destruct (playPCMAudio_run env2 r2 data2
              (final (run env1 (App.playPCMAudio r1 data1) s))) as (_ & _ & Hctx2 & _).
  cbv zeta in *. unfold context_ready in *.
  split; [apply playPCMAudio_creations|]. split; [exact Hctx|]. split; [|split; [|split]].
  - rewrite Ht. unfold context_ready. rewrite <- Hctx. intros ->.
    unfold context_events, fallback_events.
    destruct (audioContextRef s), (lastText r1) as [[|c t]|]; reflexivity.
  - rewrite playPCMAudio_creations, Hctx. reflexivity.
  - rewrite Hctx2, Hctx. reflexivity.
  - intros E. rewrite playPCMAudio_creations, Hctx2, E. split; reflexivity.
Qed.

(** Replay after a capture, from the render that follows it.  When the
    capture stored no text, replay does nothing.  When it stored a text
    and no payload, replay speaks that text in the language now selected.
    When the capture played samples, the only audio call of replay is the
    start of the same samples: it creates no second audio context.  And whenever a text is stored,
    replay is never silent: it plays, or it speaks exactly that text. *)
Theorem replay_after_capture env r file s :
  let out := run env (App.processImage r file) s in
  let again := run env (App.replayAudio (hooks (final out))) (final out) in
  (lastText (hooks (final out)) = None -> trace again = [])
  /\ (forall text, lastText (hooks (final out)) = Some text ->
        audioData (hooks (final out)) = None ->
        trace again
        = [EvSpeechCancel;
           EvSpeechSpeak text (code (App.SUPPORTED_LANGUAGES (selectedLang (hooks s))))
             (9 # 10)])
  /\ (forall samples, played (trace out) = [samples] ->
        host_calls (trace again) = [start_buffer 1 samples 24000])
  /\ (forall text, lastText (hooks (final out)) = Some text ->
        played (trace again) <> [] \/ spoken (trace again) = [text]).
Proof.
  cbv zeta.
  destruct (capture_shape env r file s) as (_ & Hlang & Hshape).
  cbv zeta in *.
  split; [|split; [|split]].
  - intros Hnone.
    destruct Hshape as [(T & Ht & _) | (_ & Ha & _)]; [congruence|].
    unfold App.replayAudio. rewrite Ha, Hnone. reflexivity.
  - intros text Ht Ha.
    destruct Hshape as [(T & Ht' & Hne & _) | (Ht' & _)]; [|congruence].
    assert (T = text) by congruence. subst T.
    unfold App.replayAudio. rewrite Ha, Ht.
    destruct text as [|c t]; [contradiction|].
    unfold App.speakStatus, App.langConfig. rewrite Hlang. reflexivity.
  - intros samples Hplayed.
    destruct (processImage_cases env r file s)
      as [[_ E] | (d & _ & [[_ E] | [(_ & _ & E) | (Hc & payload & _ & Hne & E)]])];
      cbv zeta in E; rewrite E in *; cbn [trace final] in *.
    + discriminate Hplayed.
    + rewrite app_comm_cons in Hplayed.
      destruct (quiet_prefix
                  (EvRequest (readAsDataURL file) :: settle_log env (ocr_request r file d))
                  (speak_events r (errorMsg (App.langConfig r)))) as (_ & Hp & _).
      { apply quiet_requests1. }
      rewrite Hp in Hplayed. discriminate Hplayed.
    + rewrite app_assoc, app_comm_cons in Hplayed.
      match type of Hplayed with played (?pre ++ ?t) = _ =>
        destruct (quiet_prefix pre t) as (_ & Hp & _)
      end.
      { apply quiet_requests2. }
      rewrite Hp in Hplayed. discriminate Hplayed.
    + rewrite app_assoc, app_comm_cons in Hplayed.
      match type of Hplayed with played (?pre ++ ?t) = _ =>
        destruct (quiet_prefix pre t) as (_ & Hp & _)
      end.
      { apply quiet_requests2. }
      rewrite Hp in Hplayed. clear Hp.
      apply playPCMAudio_played in Hplayed.
      destruct Hplayed as (Hd & Hs & Hstart & Hready).
      match goal with |- context [final (run env (App.playPCMAudio r payload) ?st)] =>
        destruct (playPCMAudio_run env r payload st) as (_ & Hh & Hctx & _);
        cbv zeta in Hh, Hctx; rewrite Hready in Hctx;
        destruct (final (run env (App.playPCMAudio r payload) st)) as [h' c'];
        cbn [hooks audioContextRef] in Hh, Hctx; subst h' c'
      end.
      destruct payload as [|c b]; [contradiction|].
      destruct s as [[l p e t a] c0].
      cbn [update update_hooks reset hooks audioData]. unfold App.replayAudio.
      cbn [audioData]. rewrite (playPCMAudio_plays _ _ _ _ samples); auto.
  - intros text Ht.
    destruct Hshape as [(T & Ht' & Hne & _ & Ha) | (Ht' & _)]; [|congruence].
    assert (T = text) by congruence. subst T.
    destruct text as [|c t]; [contradiction|].
    unfold App.replayAudio. rewrite Ht.
    destruct Ha as [-> | (a & -> & Hane)]; [right; reflexivity|].
    destruct a as [|c' a]; [contradiction|].
    match goal with |- context [run env (App.playPCMAudio ?r' ?X) ?st] =>
      destruct (playPCMAudio_outputs env r' X st) as (_ & _ & _ & Hu & Hsilent);
      destruct (playPCMAudio_run env r' X st) as (_ & _ & _ & Htr);
      cbv zeta in Hu, Hsilent, Htr;
      destruct (played (trace (run env (App.playPCMAudio r' X) st))) eqn:Hp;
        [right | left; discriminate]
    end.
    rewrite Htr in *.
    unfold context_events, context_ready, decode_and_start, fallback_events in *.
    rewrite Ht in *. cbn [JS.truthy] in *.
    match goal with |- context [audioContextRef ?st] => destruct (audioContextRef st) end;
      cbn [orb app] in *;
      destruct (host env (new_AudioContext 24000)); cbn [app] in *;
      destruct (PCM.decode (c' :: a)) as [e|[|x xs]];
      try destruct (host env (start_buffer 1 (x :: xs) 24000));
      try discriminate Hp; reflexivity.
Qed.

Lemma played_singleton (l : list (list spec_float)) samples :
  (length l <= 1)%nat -> In samples l -> l = [samples].
Proof.
  destruct l as [|x [|y l]]; cbn; intros Hl Hin.
  - contradiction.
  - destruct Hin as [-> | []]. reflexivity.
  - lia.
Qed.

(** What a capture plays is the stored payload, decoded.  Every buffer
    whose playback starts during a capture is the decoding of the payload
    the capture stored in [audioData]; it holds at least one sample and
    only finite samples from -1 (included) to 1 (excluded); and it is
    started as one channel at 24000 Hz. *)
Theorem played_samples_are_the_stored_payload env r file s samples :
  let out := run env (App.processImage r file) s in
  In samples (played (trace out)) ->
  exists payload,
    audioData (hooks (final out)) = Some payload
    /\ PCM.decode payload = inr samples
    /\ samples <> []
    /\ Forall unit_sample samples
    /\ In (EvHost (start_buffer 1 samples 24000) true) (trace out).
Proof.
  cbv zeta.
  destruct (processImage_cases env r file s)
    as [[_ E] | (d & _ & [[_ E] | [(_ & _ & E) | (Hc & payload & _ & Hne & E)]])];
    cbv zeta in E; rewrite E; cbn [trace final]; intros Hplayed.
  - destruct Hplayed.
  - rewrite app_comm_cons in Hplayed.
    match type of Hplayed with In _ (played (?pre ++ ?t)) =>
      destruct (quiet_prefix pre t) as (_ & Hp & _); [apply quiet_requests1|]
    end.
    rewrite Hp in Hplayed. destruct Hplayed.
  - rewrite app_assoc, app_comm_cons in Hplayed.
    match type of Hplayed with In _ (played (?pre ++ ?t)) =>
      destruct (quiet_prefix pre t) as (_ & Hp & _); [apply quiet_requests2|]
    end.
    rewrite Hp in Hplayed. destruct Hplayed.
  - rewrite app_assoc, app_comm_cons in Hplayed.
    match type of Hplayed with In _ (played (?pre ++ ?t)) =>
      destruct (quiet_prefix pre t) as (_ & Hp & _); [apply quiet_requests2|]
    end.
    rewrite Hp in Hplayed. clear Hp.
    match type of Hplayed with In _ (played (trace (run env _ ?st))) =>
      destruct (playPCMAudio_outputs env r payload st) as (Hn & _);
      cbv zeta in Hn;
      apply played_singleton in Hplayed; [|lia]
    end.
    apply playPCMAudio_played in Hplayed.
    destruct Hplayed as (Hd & Hs & Hstart & Hready).
    exists payload.
    match goal with |- context [final (run env (App.playPCMAudio r payload) ?st)] =>
      destruct (playPCMAudio_run env r payload st) as (_ & Hh & _ & Ht);
      cbv zeta in Hh, Ht;
      destruct (final (run env (App.playPCMAudio r payload) st)) as [h' c'];
      cbn [hooks] in Hh; subst h'
    end.
    split; [destruct s as [[l p e t a] c0]; reflexivity|].
    split; [exact Hd|]. split; [exact Hs|]. split.
    + destruct (decode_samples payload samples Hd)
        as (bytes & _ & _ & _ & _ & _ & Hunit).
      exact Hunit.
    + right. apply in_or_app. right. apply in_or_app. right.
      rewrite Ht. apply in_or_app. right. rewrite Hready.
      unfold decode_and_start. rewrite Hd.
      destruct samples as [|x xs]; [contradiction|].
      rewrite Hstart. left. reflexivity.
Qed.

Lemma played_samples_are_the_stored_payload_witness :
  exists payload,
    PCM.decode payload = inr [S754_zero false; S754_finite true 8388608 (-23)].
Proof.
  destruct (played_samples_are_the_stored_payload
              (responses (Fulfilled None) (Fulfilled (Some (JS.lit "Hola")))
                 (Fulfilled (Some (JS.lit "AAAAgA=="))) true)
              fresh photo boot [S754_zero false; S754_finite true 8388608 (-23)])
    as (payload & _ & Hd & _).
  - left. reflexivity.
  - exists payload. exact Hd.
Defined.

(** ** Replay *)

Lemma decode_encode_values bs :
  Forall is_byte bs -> Nat.even (length bs) = true ->
  exists samples,
    PCM.decode (Base64.encode bs) = inr samples
    /\ length bs = (2 * length samples)%nat
    /\ forall i, (i < length samples)%nat ->
         exists x q,
           nth_error samples i = Some x
           /\ PCM.SF2Q x = Some q
           /\ Qeq q (Spec.int16_le (nth (2 * i) bs 0) (nth (2 * i + 1) bs 0) # 32768).
Proof.
  intros Hb He.
  exists (List.map PCM.sample_of_int16 (PCM.int16_elements bs)).
  split; [apply decode_encode; assumption|].
  rewrite length_map. split; [apply int16_elements_length; assumption|].
  intros i Hi.
  pose proof (int16_elements_length bs He) as Hlen.
  rewrite nth_error_map, int16_elements_nth by lia. cbn [option_map].
  pose proof (nth_is_byte bs (2 * i) Hb) as Hlo.
  pose proof (nth_is_byte bs (2 * i + 1) Hb) as Hhi.
  rewrite (signed16_int16_le _ _ Hlo Hhi).
  destruct (sample_of_int16_exact
              (Spec.int16_le (nth (2 * i) bs 0) (nth (2 * i + 1) bs 0)))
    as (q & Hq & Heq).
  { rewrite <- (signed16_int16_le _ _ Hlo Hhi).
    apply signed16_range. unfold is_byte in *. lia. }
  exists (PCM.sample_of_int16 (Spec.int16_le (nth (2 * i) bs 0) (nth (2 * i + 1) bs 0))), q.
  auto.
Qed.

Lemma encode_truthy bs : bs <> [] -> Base64.encode bs <> [].
Proof.
  destruct bs as [|b0 [|b1 [|b2 bs]]]; [contradiction | discriminate..].
Qed.

(** C7.  [replayAudio] with a stored payload is [playPCMAudio] of that
    payload, which plays its decoded samples when decoding and the Web
    Audio calls succeed; so a stored payload that is the base64 text of an
    even number of bytes is played as one sample for every two bytes, the
    sample being the little-endian 16-bit reading of the two bytes divided
    by 32768, and nothing is spoken.  Without a payload but with a stored
    text it speaks that text; with neither it does nothing at all. *)
Theorem replay_cases env r s :
  let out := run env (App.replayAudio r) s in
  (forall payload, audioData r = Some payload -> payload <> [] ->
     out = run env (App.playPCMAudio r payload) s
     /\ (forall samples,
           PCM.decode payload = inr samples -> samples <> [] ->
           (audioContextRef s = false -> host env (new_AudioContext 24000) = true) ->
           host env (start_buffer 1 samples 24000) = true ->
           played (trace out) = [samples] /\ spoken (trace out) = []
           /\ completion out = Normal tt))
  /\ (forall bs,
        Forall is_byte bs -> Nat.even (length bs) = true -> bs <> [] ->
        audioData r = Some (Base64.encode bs) ->
        (audioContextRef s = false -> host env (new_AudioContext 24000) = true) ->
        (forall samples, host env (start_buffer 1 samples 24000) = true) ->
        exists samples,
          played (trace out) = [samples]
          /\ host_calls (trace out)
             = (if audioContextRef s then [] else [new_AudioContext 24000])
                 ++ [start_buffer 1 samples 24000]
          /\ spoken (trace out) = []
          /\ completion out = Normal tt
          /\ length bs = (2 * length samples)%nat
          /\ forall i, (i < length samples)%nat ->
               exists x q,
                 nth_error samples i = Some x
                 /\ PCM.SF2Q x = Some q
                 /\ Qeq q (Spec.int16_le (nth (2 * i) bs 0) (nth (2 * i + 1) bs 0)
                             # 32768))
  /\ (forall t, JS.truthy_opt (audioData r) = false -> lastText r = Some t -> t <> [] ->
      trace out = [EvSpeechCancel;
                   EvSpeechSpeak t (code (App.SUPPORTED_LANGUAGES (selectedLang r)))
                     (9 # 10)]
      /\ completion out = Normal tt /\ final out = s)
  /\ (JS.truthy_opt (audioData r) = false -> JS.truthy_opt (lastText r) = false ->
      trace out = [] /\ completion out = Normal tt /\ final out = s).
Proof.
  intros out.
  assert (Hpayload : forall payload, audioData r = Some payload -> payload <> [] ->
     out = run env (App.playPCMAudio r payload) s
     /\ (forall samples,
           PCM.decode payload = inr samples -> samples <> [] ->
           (audioContextRef s = false -> host env (new_AudioContext 24000) = true) ->
           host env (start_buffer 1 samples 24000) = true ->
           played (trace out) = [samples] /\ spoken (trace out) = []
           /\ host_calls (trace out)
              = (if audioContextRef s then [] else [new_AudioContext 24000])
                  ++ [start_buffer 1 samples 24000]
           /\ completion out = Normal tt)).
  { unfold out, App.replayAudio. intros payload Ha Hne. rewrite Ha.
    destruct payload as [|c a]; [contradiction|].
    split; [reflexivity|].
    intros samples Hdec Hs Hctx Hstart.
    destruct (playPCMAudio_run env r (c :: a) s) as (Hc & _ & _ & Ht).
    rewrite Hc, Ht. unfold context_events, context_ready, decode_and_start.
    rewrite Hdec. destruct samples as [|x xs]; [contradiction|]. rewrite Hstart.
    destruct (audioContextRef s); cbn [orb].
    + repeat split.
    + rewrite (Hctx eq_refl). repeat split. }
  split; [|split; [|split]].
  - intros payload Ha Hne. destruct (Hpayload payload Ha Hne) as [E H].
    split; [exact E|]. intros samples Hdec Hs Hctx Hstart.
    destruct (H samples Hdec Hs Hctx Hstart) as (H1 & H2 & _ & H4). auto.
  - intros bs Hb He Hne Ha Hctx Hstart.
    destruct (decode_encode_values bs Hb He) as (samples & Hdec & Hlen & Hval).
    assert (Hs : samples <> []).
    { intros ->. destruct bs; [contradiction | discriminate Hlen]. }
    destruct (Hpayload (Base64.encode bs) Ha (encode_truthy bs Hne)) as [_ H].
    destruct (H samples Hdec Hs Hctx (Hstart samples)) as (H1 & H2 & H3 & H4).
    exists samples. auto 10.
  - unfold out, App.replayAudio. intros t Ha Ht Hne. rewrite Ht.
    destruct t as [|c t]; [contradiction|].
    destruct (audioData r) as [[|c' a]|]; try discriminate Ha; repeat split.
  - unfold out, App.replayAudio. intros Ha Ht.
    destruct (audioData r) as [[|c' a]|]; try discriminate Ha;
      destruct (lastText r) as [[|c t]|]; try discriminate Ht; repeat split.
Qed.

Lemma replay_cases_witness :
  let env := responses Rejected Rejected Rejected true in
  let stored := update_hooks (setAudioData (Some (JS.lit "AAAAgA=="))) fresh in
  played (trace (run env (App.replayAudio stored) boot))
  = [[S754_zero false; S754_finite true 8388608 (-23)]]
  /\ (exists samples,
        played (trace (run env (App.replayAudio stored) boot)) = [samples]
        /\ length samples = 2%nat)
  /\ trace (run env (App.replayAudio (with_text (JS.lit "Hola") fresh)) boot)
     = [EvSpeechCancel; EvSpeechSpeak (JS.lit "Hola") (JS.lit "ca-ES") (9 # 10)]
  /\ trace (run env (App.replayAudio fresh) boot) = [].
Proof.
  intros env stored. split; [|split; [|split]].
  - destruct (proj1 (replay_cases env stored boot) (JS.lit "AAAAgA==") eq_refl)
      as [_ H]; [discriminate|].
    apply (H [S754_zero false; S754_finite true 8388608 (-23)]);
      [reflexivity | discriminate | reflexivity | reflexivity].
  - destruct (proj1 (proj2 (replay_cases env stored boot)) [0; 0; 0; 128])
      as (samples & Hp & _ & _ & _ & Hlen & _);
      [repeat constructor; unfold is_byte; lia | reflexivity | discriminate
      | reflexivity | reflexivity | reflexivity |].
    exists samples. split; [exact Hp|]. cbn in Hlen. lia.
  - apply (proj1 (proj2 (proj2 (replay_cases env (with_text (JS.lit "Hola") fresh) boot)))
             (JS.lit "Hola")); [reflexivity | reflexivity | discriminate].
  - apply (proj2 (proj2 (proj2 (replay_cases env fresh boot)))); reflexivity.
Defined.

(** ** The cells of the page, in every reachable state *)

Lemma hooks_update a s : hooks (update a s) = update_hooks a (hooks s).
Proof. destruct a; reflexivity. Qed.


















(** ** A host without speech synthesis *)

Lemma with_speech r :
  (forall text, AnyHost.speakStatus true r text = App.speakStatus r text)
  /\ (forall base64Data, AnyHost.playPCMAudio true r base64Data = App.playPCMAudio r base64Data)
  /\ (forall file, AnyHost.processImage true r file = App.processImage r file).
Proof. repeat split. Qed.

Lemma playPCMAudio_starts env r base64Data s :
  played (trace (run env (App.playPCMAudio r base64Data) s)) = [] <->
  starts env s base64Data = false.
Proof.
  destruct (playPCMAudio_run env r base64Data s) as (_ & _ & _ & Ht).
  cbv zeta in Ht. rewrite Ht.
  unfold starts, context_events, context_ready, decode_and_start, fallback_events.
  destruct (audioContextRef s); cbn [orb app andb];
    destruct (host env (new_AudioContext 24000)); cbn [app andb];
    destruct (PCM.decode base64Data) as [e|[|x xs]];
    try destruct (host env (start_buffer 1 (x :: xs) 24000));
    destruct (lastText r) as [[|c t]|]; cbn; split; congruence.
Qed.

(** [playPCMAudio] on either kind of host. *)
Lemma playPCMAudio_run_any speech env r base64Data s :
  let out := run env (AnyHost.playPCMAudio speech r base64Data) s in
  let base := run env (App.playPCMAudio r base64Data) s in
  hooks (final out) = hooks s
  /\ audioContextRef (final out) = context_ready env s
  /\ completion out
     = (if speech || starts env s base64Data || negb (JS.truthy_opt (lastText r))
        then Normal tt else Abrupt TypeError)
  /\ played (trace out) = played (trace base)
  /\ host_calls (trace out) = host_calls (trace base)
  /\ requests (trace out) = []
  /\ utterances (trace out) = (if speech then utterances (trace base) else []).
Proof.
  destruct speech.
  - destruct (with_speech r) as (_ & -> & _). cbv zeta.
    destruct (playPCMAudio_run env r base64Data s) as (Hc & Hh & Hctx & _).
    destruct (playPCMAudio_outputs env r base64Data s) as (_ & Hq & _).
    cbv zeta in *. rewrite Hc. repeat split; auto.
  - destruct (playPCMAudio_run env r base64Data s) as (_ & _ & _ & Ht).
    cbv zeta in *. rewrite Ht. clear Ht.
    unfold AnyHost.playPCMAudio, AnyHost.speakStatus, starts, context_events,
      context_ready, decode_and_start, fallback_events, App.play.
    run_simpl.
    destruct (audioContextRef s) eqn:Hctx; cbn [negb orb andb]; run_simpl;
      try (destruct (host env (new_AudioContext 24000)); cbn [andb]; run_simpl);
      destruct (PCM.decode base64Data) as [e|[|x xs]]; run_simpl;
      try (destruct (host env (start_buffer 1 (x :: xs) 24000)); run_simpl);
      destruct (lastText r) as [[|c t]|]; run_simpl; cbn;
      rewrite ?Hctx; repeat split.
Qed.

Lemma utterances_app a b : utterances (a ++ b) = utterances a ++ utterances b.
Proof. apply flat_map_app. Qed.

(** The four ways of a capture on a host without speech synthesis. *)
Lemma without_speech_read_rejected env r file s :
  settle env (readAsDataURL file) = Rejected ->
  run env (AnyHost.processImage false r file) s
  = {| completion := Abrupt TypeError;
       final := update (setIsProcessing false)
                  (update (setError (Some (App.generic_error r))) (reset s));
       trace := [EvRequest (readAsDataURL file); EvConsoleError] |}.
Proof.
  intros Hread. unfold AnyHost.processImage, AnyHost.speakStatus. run_simpl.
  rewrite Hread. run_simpl. reflexivity.
Qed.

Lemma without_speech_no_text env r file s base64Data :
  settle env (readAsDataURL file) = Fulfilled base64Data ->
  no_text (recognized (settle env (ocr_request r file base64Data))) = true ->
  run env (AnyHost.processImage false r file) s
  = {| completion := Abrupt TypeError;
       final := update (setIsProcessing false)
                  (update (setError (Some (App.generic_error r)))
                     (update (setError (Some (errorMsg (App.langConfig r)))) (reset s)));
       trace := EvRequest (readAsDataURL file)
                  :: settle_log env (ocr_request r file base64Data)
                  ++ [EvConsoleError] |}.
Proof.
  unfold no_text, ocr_request. intros Hread Hcond.
  unfold AnyHost.processImage, AnyHost.speakStatus. run_simpl.
  rewrite Hread. run_simpl. rewrite extractText_run. run_simpl.
  rewrite Hcond. run_simpl.
  rewrite !app_nil_r. reflexivity.
Qed.

Lemma without_speech_no_payload env r file s base64Data :
  settle env (readAsDataURL file) = Fulfilled base64Data ->
  let ocrResult := recognized (settle env (ocr_request r file base64Data)) in
  no_text ocrResult = false ->
  synthesized (settle env (tts_request r (GeminiService.text ocrResult))) = None ->
  run env (AnyHost.processImage false r file) s
  = {| completion := Abrupt TypeError;
       final := update (setIsProcessing false)
                  (update (setError (Some (App.generic_error r)))
                     (update (setLastText (Some (GeminiService.text ocrResult)))
                        (reset s)));
       trace := EvRequest (readAsDataURL file)
                  :: settle_log env (ocr_request r file base64Data)
                  ++ settle_log env (tts_request r (GeminiService.text ocrResult))
                  ++ [EvConsoleError] |}.
Proof.
  intros Hread ocrResult Hcond Htts.
  unfold no_text, ocr_request, tts_request in *.
  unfold AnyHost.processImage, AnyHost.speakStatus. run_simpl.
  rewrite Hread. run_simpl. rewrite extractText_run. run_simpl.
  fold ocrResult. rewrite Hcond. run_simpl.
  rewrite generateSpeech_run. run_simpl. rewrite Htts. run_simpl.
  rewrite !app_nil_r, <- !app_assoc. reflexivity.
Qed.

Lemma without_speech_payload env r file s base64Data :
  settle env (readAsDataURL file) = Fulfilled base64Data ->
  let ocrResult := recognized (settle env (ocr_request r file base64Data)) in
  no_text ocrResult = false ->
  forall payload,
  synthesized (settle env (tts_request r (GeminiService.text ocrResult))) = Some payload ->
  let st := update (setAudioData (Some payload))
              (update (setLastText (Some (GeminiService.text ocrResult))) (reset s)) in
  let playing := run env (AnyHost.playPCMAudio false r payload) st in
  run env (AnyHost.processImage false r file) s
  = if starts env st payload || negb (JS.truthy_opt (lastText r))
    then {| completion := Normal tt;
            final := update (setIsProcessing false) (final playing);
            trace := EvRequest (readAsDataURL file)
                       :: settle_log env (ocr_request r file base64Data)
                       ++ settle_log env (tts_request r (GeminiService.text ocrResult))
                       ++ trace playing |}
    else {| completion := Abrupt TypeError;
            final := update (setIsProcessing false)
                       (update (setError (Some (App.generic_error r))) (final playing));
            trace := EvRequest (readAsDataURL file)
                       :: settle_log env (ocr_request r file base64Data)
                       ++ settle_log env (tts_request r (GeminiService.text ocrResult))
                       ++ trace playing ++ [EvConsoleError] |}.
Proof.
  intros Hread ocrResult Hcond payload Htts st playing.
  unfold no_text, ocr_request, tts_request in *.
  pose proof (synthesized_truthy _ _ Htts) as Hne.
  destruct payload as [|c b]; [contradiction|].
  destruct (playPCMAudio_run_any false env r (c :: b) st) as (_ & _ & Hc & _).
  fold playing in Hc. cbn [orb] in Hc.
  unfold AnyHost.processImage, AnyHost.speakStatus. run_simpl.
  rewrite Hread. run_simpl. rewrite extractText_run. run_simpl.
  fold ocrResult. rewrite Hcond. run_simpl.
  rewrite generateSpeech_run. run_simpl. rewrite Htts. run_simpl.
  repeat match goal with
         | |- context [run env (AnyHost.playPCMAudio false r (c :: b)) ?x] =>
             change (run env (AnyHost.playPCMAudio false r (c :: b)) x) with playing
         end.
  rewrite Hc.
  destruct (starts env st (c :: b) || negb (JS.truthy_opt (lastText r))); run_simpl;
    unfold settle_log; cbn [app]; rewrite ?app_nil_r, <- ?app_assoc; cbn [app];
    rewrite <- ?app_assoc; reflexivity.
Qed.

Lemma quiet_silent pre : quiet pre = true -> utterances pre = [] /\ played pre = [].
Proof.
  intros H. destruct (quiet_prefix pre [] H) as (_ & Hp & Hu & _).
  rewrite app_nil_r in Hp, Hu. split; assumption.
Qed.

(** A capture on a host without speech synthesis. *)
Lemma processImage_without_speech env r file s :
  let out := run env (AnyHost.processImage false r file) s in
  utterances (trace out) = []
  /\ isProcessing (hooks (final out)) = false
  /\ (completion out = Normal tt \/ completion out = Abrupt TypeError)
  /\ (completion out = Normal tt ->
      exists payload,
        audioData (hooks (final out)) = Some payload
        /\ (played (trace out) <> [] \/ JS.truthy_opt (lastText r) = false))
  /\ (completion out = Abrupt TypeError ->
      error (hooks (final out)) = Some (App.generic_error r))
  /\ (forall base64Data,
        settle env (readAsDataURL file) = Fulfilled base64Data ->
        no_text (recognized (settle env (ocr_request r file base64Data))) = true ->
        completion out = Abrupt TypeError)
  /\ (forall base64Data,
        settle env (readAsDataURL file) = Fulfilled base64Data ->
        no_text (recognized (settle env (ocr_request r file base64Data))) = false ->
        synthesized (settle env (tts_request r
          (GeminiService.text (recognized (settle env (ocr_request r file base64Data))))))
        = None ->
        completion out = Abrupt TypeError
        /\ lastText (hooks (final out))
           = Some (GeminiService.text
                     (recognized (settle env (ocr_request r file base64Data))))).
Proof.
  cbv zeta.
  destruct (settle env (readAsDataURL file)) as [d|] eqn:Hread.
  2:{ rewrite (without_speech_read_rejected env r file s Hread).
      destruct s as [[l p e t a] c]. cbn.
      repeat split; auto; try discriminate; intros; discriminate. }
  destruct (no_text (recognized (settle env (ocr_request r file d)))) eqn:Hcond.
  { rewrite (without_speech_no_text env r file s d Hread Hcond). cbn [trace final completion].
    split.
    { rewrite app_comm_cons, utterances_app.
      destruct (quiet_silent _ (quiet_requests1 env (readAsDataURL file)
                                  (ocr_request r file d))) as [-> _].
      reflexivity. }
    destruct s as [[l p e t a] c]. cbn.
    split; [reflexivity|]. split; [right; reflexivity|].
    split; [discriminate|]. split; [reflexivity|].
    split; [reflexivity|].
    intros d' [= <-] H. congruence. }
  destruct (synthesized (settle env (tts_request r
              (GeminiService.text (recognized (settle env (ocr_request r file d)))))))
    as [payload|] eqn:Htts.
  - pose proof (without_speech_payload env r file s d Hread Hcond payload Htts) as E.
    cbv zeta in E. rewrite E. clear E.
    set (st := update (setAudioData (Some payload))
                 (update (setLastText
                    (Some (GeminiService.text
                             (recognized (settle env (ocr_request r file d))))))
                    (reset s))).
    destruct (playPCMAudio_run_any false env r payload st)
      as (Hh & _ & _ & Hpl & _ & _ & Hu).
    cbv zeta in Hh, Hpl, Hu.
    pose proof (playPCMAudio_starts env r payload st) as Hst.
    rewrite <- Hpl in Hst.
    destruct (quiet_prefix
                (EvRequest (readAsDataURL file)
                   :: settle_log env (ocr_request r file d)
                   ++ settle_log env (tts_request r
                        (GeminiService.text
                           (recognized (settle env (ocr_request r file d))))))
                (trace (run env (AnyHost.playPCMAudio false r payload) st))
                (quiet_requests2 _ _ _ _)) as (_ & Hqp & Hqu & _).
    destruct (final (run env (AnyHost.playPCMAudio false r payload) st)) as [h' c'] eqn:Ef.
    cbn [hooks] in Hh. subst h'.
    destruct (starts env st payload) eqn:Hs; cbn [orb].
    + cbn [trace final completion].
      rewrite app_assoc, app_comm_cons, Hqp, Hqu, Hu.
      split; [reflexivity|].
      split; [unfold st; destruct s as [[l p e t a] c]; reflexivity|].
      split; [left; reflexivity|].
      split; [|split; [discriminate|split; intros d' [= <-]; intros; congruence]].
      intros _. exists payload. split.
      * unfold st. destruct s as [[l p e t a] c]. reflexivity.
      * left. intros Hnil. apply Hst in Hnil. discriminate.
    + destruct (JS.truthy_opt (lastText r)) eqn:Hlt; cbn [negb trace final completion].
      * rewrite app_assoc, app_comm_cons, app_assoc, utterances_app, Hqu, Hu.
        split; [reflexivity|].
        split; [unfold st; destruct s as [[l p e t a] c]; reflexivity|].
        split; [right; reflexivity|].
        split; [discriminate|].
        split; [intros _; unfold st; destruct s as [[l p e t a] c]; reflexivity|].
        split; intros d' [= <-]; intros; congruence.
      * rewrite app_assoc, app_comm_cons, Hqp, Hqu, Hu.
        split; [reflexivity|].
        split; [unfold st; destruct s as [[l p e t a] c]; reflexivity|].
        split; [left; reflexivity|].
        split; [|split; [discriminate|split; intros d' [= <-]; intros; congruence]].
        intros _. exists payload. split.
        -- unfold st. destruct s as [[l p e t a] c]. reflexivity.
        -- right. reflexivity.
  - rewrite (without_speech_no_payload env r file s d Hread Hcond Htts).
    cbn [trace final completion].
    split.
    { rewrite app_assoc, app_comm_cons, utterances_app.
      destruct (quiet_silent _ (quiet_requests2 env (readAsDataURL file)
                                  (ocr_request r file d)
                                  (tts_request r (GeminiService.text
                                     (recognized (settle env (ocr_request r file d)))))))
        as [-> _].
      reflexivity. }
    destruct s as [[l p e t a] c]. cbn.
    split; [reflexivity|]. split; [right; reflexivity|].
    split; [discriminate|]. split; [reflexivity|].
    split; [intros d' [= <-]; intros; congruence|].
    intros d' [= <-] _ _. split; reflexivity.
Qed.

(** [playPCMAudio] leaves the five state cells as they are, and its own
    handler takes every failure of the context, of the decoding and of
    the start.  What can leave it is the TypeError of the fallback inside
    that handler: it throws exactly when the playback did not start, the
    render holds a text to speak and the host has no speech synthesis.  On
    a host with speech synthesis it never throws. *)
Theorem playPCMAudio_throws_only_from_fallback speechSynthesis env r base64Data s :
  let out := run env (AnyHost.playPCMAudio speechSynthesis r base64Data) s in
  hooks (final out) = hooks s
  /\ (completion out = Normal tt \/ completion out = Abrupt TypeError)
  /\ (completion out = Abrupt TypeError <->
      speechSynthesis = false
      /\ JS.truthy_opt (lastText r) = true
      /\ played (trace out) = [])
  /\ (played (trace out) = [] <-> starts env s base64Data = false)
  /\ AnyHost.playPCMAudio true r base64Data = App.playPCMAudio r base64Data.
Proof.
  cbv zeta.
  destruct (playPCMAudio_run_any speechSynthesis env r base64Data s)
    as (Hh & _ & Hc & Hp & _).
  cbv zeta in *.
  pose proof (playPCMAudio_starts env r base64Data s) as Hst. rewrite <- Hp in Hst.
  split; [exact Hh|]. rewrite Hc.
  split; [|split; [|split; [exact Hst | reflexivity]]].
  - destruct (speechSynthesis || starts env s base64Data
              || negb (JS.truthy_opt (lastText r))); auto.
  - destruct speechSynthesis; cbn [orb].
    + split; [discriminate | intros (H & _); discriminate H].
    + destruct (starts env s base64Data) eqn:Hs; cbn [orb].
      * split; [discriminate|]. intros (_ & _ & Hnil).
        apply Hst in Hnil. discriminate Hnil.
      * destruct (JS.truthy_opt (lastText r)); cbn [negb].
        -- split; [|reflexivity]. intros _. repeat split. apply Hst. reflexivity.
        -- split; [discriminate | intros (_ & H & _); discriminate H].
Qed.

(** ** The top-level handler *)

Lemma in_flight_event host u u' :
  reachable host u -> flights u <> [] -> event host u u' ->
  (flights u' = flights u
   /\ isProcessing (hooks (store u')) = true
   /\ App.capture_disabled (hooks (store u')) = true
   /\ App.replay_disabled (hooks (store u')) = true)
  \/ exists q k o,
      flights u = [(q, k)]
      /\ store u' = snd (advance host (k o) (store u)).
Proof.
  intros Hr Hne Hev.
  destruct (single_flight_reachable host u Hr) as [E | (q & k & E & Hp & Hc & _)];
    [contradiction|].
  destruct Hev as [u Hdis Hch | u file Hch | u before q' k' after o Hfl | u l | u Hdis].
  - unfold App.capture_disabled in Hdis. congruence.
  - congruence.
  - right. rewrite E in Hfl.
    destruct before as [|x before].
    + injection Hfl as <- <- <-. exists q, k, o. split; [exact E|].
      destruct (advance host (k o) (store u)) as [st s']. reflexivity.
    + injection Hfl as _ Hfl. destruct before; discriminate.
  - left. cbn [flights store]. rewrite hooks_update.
    unfold App.capture_disabled, App.replay_disabled.
    destruct (hooks (store u)) as [l0 p e t a]. cbn in *. subst p. auto.
  - unfold App.replay_disabled in Hdis. rewrite Hp in Hdis. discriminate.
Qed.

(** C9.  The top-level handler of [processImage] does not contain every
    failure, nor announce it in the selected language.
    - Its announcement is unguarded.  On a host without speech synthesis
      [speakStatus] throws, also inside the handler: nothing is ever
      announced, and a capture ends normally only when a payload was
      received and either its playback started or the render held no text
      to fall back to; every other capture (a failed read, no text
      recognized, no payload, a failed playback with a text to speak) ends
      with the TypeError leaving [processImage], the generic message stored
      as the error (beside the recognized text, when there is one) and the
      processing flag down.
    - The generic message is not localized: with Spanish selected a
      capture that finds no text on such a host throws and leaves the
      English message.
    - A read that ends in an error never settles its promise (the listener
      throws before it resolves, and nothing rejects), and no other event
      of the page ends a capture in flight or clears its flag: the page
      stays busy.
    On a host with speech synthesis the functions are those of [App]. *)
Theorem top_level_handler_lets_failures_out :
  (forall env r file s,
     let out := run env (AnyHost.processImage false r file) s in
     utterances (trace out) = []
     /\ isProcessing (hooks (final out)) = false
     /\ (completion out = Normal tt \/ completion out = Abrupt TypeError)
     /\ (completion out = Normal tt ->
         exists payload,
           audioData (hooks (final out)) = Some payload
           /\ (played (trace out) <> [] \/ JS.truthy_opt (lastText r) = false))
     /\ (completion out = Abrupt TypeError ->
         error (hooks (final out))
         = Some (match selectedLang r with
                 | ca => JS.lit "S'ha produ" ++ [239] ++ JS.lit "t un error."
                 | _ => JS.lit "An error occurred."
                 end))
     /\ (forall base64Data,
           settle env (readAsDataURL file) = Fulfilled base64Data ->
           no_text (recognized (settle env (ocr_request r file base64Data))) = true ->
           completion out = Abrupt TypeError)
     /\ (forall base64Data,
           settle env (readAsDataURL file) = Fulfilled base64Data ->
           no_text (recognized (settle env (ocr_request r file base64Data))) = false ->
           synthesized
             (settle env
                (tts_request r
                   (GeminiService.text
                      (recognized (settle env (ocr_request r file base64Data))))))
           = None ->
           completion out = Abrupt TypeError
           /\ lastText (hooks (final out))
              = Some (GeminiService.text
                        (recognized (settle env (ocr_request r file base64Data))))))
  /\ (let env := responses (Fulfilled (Some (JS.lit "AAAA")))
                   (Fulfilled (Some (JS.lit "NO_TEXT_FOUND"))) Rejected true in
      let out := run env (AnyHost.processImage false (with_lang es fresh) photo) boot in
      completion out = Abrupt TypeError
      /\ error (hooks (final out)) = Some (JS.lit "An error occurred.")
      /\ isProcessing (hooks (final out)) = false
      /\ trace out
         = [EvRequest (readAsDataURL photo);
            EvRequest (generateContent_OCR (Some (JS.lit "AAAA")) (JS.lit "image/jpeg")
                         (JS.lit "espa" ++ [241] ++ JS.lit "ol"));
            EvConsoleError])
  /\ (forall r file, AnyHost.processImage true r file = App.processImage r file)
  /\ DataURL.onloadend DataURL.result_is_null = None
  /\ (forall host u u',
        reachable host u -> flights u <> [] -> event host u u' ->
        (flights u' = flights u
         /\ isProcessing (hooks (store u')) = true
         /\ App.capture_disabled (hooks (store u')) = true
         /\ App.replay_disabled (hooks (store u')) = true)
        \/ exists q k o,
            flights u = [(q, k)]
            /\ store u' = snd (advance host (k o) (store u))).
Proof.
  split; [|split; [|split; [|split]]].
  - intros env r file s. apply processImage_without_speech.
  - vm_compute. repeat split.
  - reflexivity.
  - reflexivity.
  - apply in_flight_event.
Qed.

(** ** The data URL of the file reader *)

Lemma split_no_separator sep s :
  forallb (fun c => negb (c =? sep)) s = true -> DataURL.split sep s = [s].
Proof.
  induction s as [|c s IH]; [reflexivity|].
  cbn [forallb DataURL.split]. intros H. apply andb_prop in H. destruct H as [Hc Hs].
  destruct (c =? sep); [discriminate Hc|]. rewrite (IH Hs). reflexivity.
Qed.

Lemma split_second sep prefix payload :
  forallb (fun c => negb (c =? sep)) prefix = true ->
  forallb (fun c => negb (c =? sep)) payload = true ->
  DataURL.split sep (prefix ++ sep :: payload) = [prefix; payload].
Proof.
  intros Hp Hs. induction prefix as [|c prefix IH]; cbn [app DataURL.split].
  - rewrite Z.eqb_refl, (split_no_separator sep payload Hs). reflexivity.
  - cbn [forallb] in Hp. apply andb_prop in Hp. destruct Hp as [Hc Hp].
    destruct (c =? sep); [discriminate Hc|]. rewrite (IH Hp). reflexivity.
Qed.

Lemma encode_no_comma bs :
  Forall is_byte bs -> forallb (fun c => negb (c =? 44)) (Base64.encode bs) = true.
Proof.
  intros Hb. unfold Base64.encode. rewrite forallb_app. apply andb_true_intro. split.
  - apply forallb_forall. intros c Hin. apply in_map_iff in Hin.
    destruct Hin as (i & <- & Hi).
    pose proof (sextets_range bs Hb) as Hs.
    rewrite Forall_forall in Hs. specialize (Hs i Hi).
    unfold is_sextet in Hs. unfold Base64.char_of.
    repeat case_cmp; try reflexivity; exfalso; try lia.
    destruct (i =? 62); discriminate.
  - destruct (padding_shape (length bs)) as [E | [E | E]]; rewrite E; reflexivity.
Qed.

(** What the recognizer is sent is the file.  For a media type without a
    comma, the second piece of the data URL that [readAsDataURL] gives is
    the base64 text of the bytes of the file, the whole of it and nothing
    else: [atob] decodes it to exactly those bytes.  A result without any
    comma gives [undefined]. *)
Theorem data_url_payload_is_the_file mediaType bytes :
  forallb (fun c => negb (c =? 44)) mediaType = true ->
  Forall is_byte bytes ->
  DataURL.base64_of (DataURL.readAsDataURL_result mediaType bytes)
    = Some (Base64.encode bytes)
  /\ Base64.atob (Base64.encode bytes) = Some bytes
  /\ forall result,
       forallb (fun c => negb (c =? 44)) result = true ->
       DataURL.base64_of result = None.
Proof.
  intros Hm Hb. split; [|split].
  - unfold DataURL.base64_of, DataURL.readAsDataURL_result.
    change (JS.lit ";base64,") with (JS.lit ";base64" ++ [44]).
    rewrite (app_assoc (JS.lit "data:")), (app_assoc _ (JS.lit ";base64" ++ [44])).
    rewrite (app_assoc _ (JS.lit ";base64") [44]), <- (app_assoc _ [44]).
    cbn [app]. rewrite split_second; [reflexivity | | apply encode_no_comma, Hb].
    rewrite !forallb_app, Hm. reflexivity.
  - apply atob_encode_bytes, Hb.
  - intros result Hr. unfold DataURL.base64_of.
    rewrite (split_no_separator 44 result Hr). reflexivity.
Qed.

Lemma data_url_payload_is_the_file_witness :
  DataURL.base64_of (JS.lit "data:image/png;base64,SG9sYQ==") = Some (JS.lit "SG9sYQ==").
Proof.
  apply (proj1 (data_url_payload_is_the_file (JS.lit "image/png") [72; 111; 108; 97]
                  eq_refl
                  ltac:(repeat constructor; unfold is_byte; lia))).
Defined.

(** ** The speech endpoint of the server *)



Lemma tts_error_reply {Json : Type} (fetch : Server.Upstream -> Server.Fetched (Json := Json))
    (h : Server.Handled) m :
  Server.reply h = {| Server.status := 500; Server.answer := Server.error_message m |} ->
  m = JS.lit "ElevenLabs API Key not configured" \/ m = JS.lit "Failed to generate audio" ->
  (Server.ok (Server.status (Server.reply h)) = true
   <-> exists audioData, Server.answer (Server.reply h) = Server.audio audioData)
  /\ (forall audioData, Server.answer (Server.reply h) = Server.audio audioData ->
        Server.status (Server.reply h) = 200
        /\ exists q st j bytes,
             Server.sent h = [q]
             /\ fetch q = Server.Response st j (Some bytes)
             /\ Server.ok st = true
             /\ Base64.atob audioData = Some bytes)
  /\ (forall errorData,
        Server.answer (Server.reply h) = Server.provider_error errorData ->
        exists q j b,
          Server.sent h = [q]
          /\ fetch q = Server.Response (Server.status (Server.reply h)) j b
          /\ j = Some errorData
          /\ Server.ok (Server.status (Server.reply h)) = false)
  /\ (forall m', Server.answer (Server.reply h) = Server.error_message m' ->
        Server.status (Server.reply h) = 500
        /\ (m' = JS.lit "ElevenLabs API Key not configured"
            \/ m' = JS.lit "Failed to generate audio")).
Proof.
  intros -> Hm. cbn [Server.status Server.answer].
  split; [split; [discriminate | intros [a Ha]; discriminate Ha]|].
  split; [intros a Ha; discriminate Ha|].
  split; [intros e He; discriminate He|].
  intros m' [= <-]. split; [reflexivity | exact Hm].
Qed.

Lemma tts_handler_replies {Json : Type} env (body : Server.Body (Json := Json)) fetch :
  (forall q st j bytes, fetch q = Server.Response st j (Some bytes) -> Forall is_byte bytes) ->
  let h := Server.tts_elevenlabs env body fetch in
  (Server.ok (Server.status (Server.reply h)) = true
   <-> exists audioData, Server.answer (Server.reply h) = Server.audio audioData)
  /\ (forall audioData, Server.answer (Server.reply h) = Server.audio audioData ->
        Server.status (Server.reply h) = 200
        /\ exists q st j bytes,
             Server.sent h = [q]
             /\ fetch q = Server.Response st j (Some bytes)
             /\ Server.ok st = true
             /\ Base64.atob audioData = Some bytes)
  /\ (forall errorData,
        Server.answer (Server.reply h) = Server.provider_error errorData ->
        exists q j b,
          Server.sent h = [q]
          /\ fetch q = Server.Response (Server.status (Server.reply h)) j b
          /\ j = Some errorData
          /\ Server.ok (Server.status (Server.reply h)) = false)
  /\ (forall m, Server.answer (Server.reply h) = Server.error_message m ->
        Server.status (Server.reply h) = 500
        /\ (m = JS.lit "ElevenLabs API Key not configured"
            \/ m = JS.lit "Failed to generate audio")).
Proof.
  intros Hbytes. cbv zeta. unfold Server.tts_elevenlabs.
  destruct (Server.ELEVENLABS_API_KEY env) as [[|c k]|]; cbn [JS.truthy]; cbv zeta.
  1, 3: eapply tts_error_reply; [reflexivity | left; reflexivity].
  match goal with |- context [fetch ?q] =>
    set (req := q); destruct (fetch req) as [|st j b] eqn:Ef
  end.
  - eapply tts_error_reply; [reflexivity | right; reflexivity].
  - destruct (Server.ok st) eqn:Hok; cbn [negb].
    + destruct b as [bytes|];
        [|eapply tts_error_reply; [reflexivity | right; reflexivity]].
      cbn [Server.reply Server.status Server.answer Server.sent].
      split; [split; [eexists; reflexivity | reflexivity]|].
      split; [|split; [intros e He; discriminate He | intros m Hm; discriminate Hm]].
      intros a [= <-]. split; [reflexivity|].
      exists req, st, j, bytes. repeat split; auto.
      apply atob_encode_bytes. eapply Hbytes. exact Ef.
    + destruct j as [errorData|];
        [|eapply tts_error_reply; [reflexivity | right; reflexivity]].
      cbn [Server.reply Server.status Server.answer Server.sent]. rewrite Hok.
      split; [split; [discriminate | intros [a Ha]; discriminate Ha]|].
      split; [intros a Ha; discriminate Ha|].
      split; [|intros m Hm; discriminate Hm].
      intros e [= <-]. exists req, (Some errorData), b. auto.
Qed.

(** The replies of the endpoint.  A request the parser rejects is answered
    by the framework with the parser's status and the handler is not run;
    a request without a body makes the handler throw before it replies.
    Every other request is answered by the handler: the status is a
    success status exactly when the reply carries audio, and it is then
    200; this happens only when the provider answered with a success
    status and its body could be read, and the audio is then the base64
    text that [atob] decodes to the very bytes the provider sent.  An
    error status of the provider is passed on with the provider's error
    body; every other reply of the handler is the status 500 with one of
    two fixed messages. *)
Theorem tts_endpoint_replies {Json : Type} env (inbound : Server.Inbound (Json := Json))
    fetch :
  (forall q st j bytes, fetch q = Server.Response st j (Some bytes) -> Forall is_byte bytes) ->
  match Server.endpoint env inbound fetch with
  | Server.by_parser status => inbound = Server.parse_error status
  | Server.handler_threw => inbound = Server.no_body
  | Server.by_handler h =>
      (exists body, inbound = Server.json_body body)
      /\ (Server.ok (Server.status (Server.reply h)) = true
          <-> exists audioData, Server.answer (Server.reply h) = Server.audio audioData)
      /\ (forall audioData, Server.answer (Server.reply h) = Server.audio audioData ->
            Server.status (Server.reply h) = 200
            /\ exists q st j bytes,
                 Server.sent h = [q]
                 /\ fetch q = Server.Response st j (Some bytes)
                 /\ Server.ok st = true
                 /\ Base64.atob audioData = Some bytes)
      /\ (forall errorData,
            Server.answer (Server.reply h) = Server.provider_error errorData ->
            exists q j b,
              Server.sent h = [q]
              /\ fetch q = Server.Response (Server.status (Server.reply h)) j b
              /\ j = Some errorData
              /\ Server.ok (Server.status (Server.reply h)) = false)
      /\ (forall m, Server.answer (Server.reply h) = Server.error_message m ->
            Server.status (Server.reply h) = 500
            /\ (m = JS.lit "ElevenLabs API Key not configured"
                \/ m = JS.lit "Failed to generate audio"))
  end.
Proof.
  intros Hbytes. destruct inbound as [status | | body]; cbn [Server.endpoint];
    [reflexivity | reflexivity |].
  split; [exists body; reflexivity|].
  apply (tts_handler_replies env body fetch Hbytes).
Qed.

Lemma tts_endpoint_replies_witness :
  Base64.atob (JS.lit "AAEC") = Some [0; 1; 2].
Proof.
  pose proof (tts_endpoint_replies
                {| Server.ELEVENLABS_API_KEY := Some (JS.lit "k");
                   Server.ELEVENLABS_VOICE_ID := None |}
                (Server.json_body {| Server.text := Some tt; Server.languageCode := None |})
                (fun _ => Server.Response 200 None (Some [0; 1; 2]))) as H.
  cbn [Server.endpoint] in H.
  destruct H as (_ & _ & Haudio & _).
  - intros q st j bytes [= _ _ <-]. repeat constructor; unfold is_byte; lia.
  - destruct (Haudio (JS.lit "AAEC") eq_refl) as (_ & q & st & j & bytes & _ & Hf & _ & Ha).
    injection Hf as _ _ <-. exact Ha.
Defined.
